(** * ANN-Fundamentals: the two bespoke helpers of the notebooks

    The notebooks define two functions of their own, [model_accuracy]
    (scikit-learn notebook) and [plot_confusion_matrix] (both notebooks).
    Everything else is calls into numpy, scikit-learn, Keras and matplotlib.

    Modelling choices.
    - numpy [int64] values are integers in [Z]; sums wrap around at 64 bits
      ([wrap64]).
    - numpy [float64] values are modelled by [float64]: a rational number,
      or one of the three special values.  The arithmetic rounds as binary64
      does: the conversion of an int64 entry, a quotient, a sum and the
      product inside [round] are the binary64 number nearest to the exact
      result, ties to the even significand ([binary64]).  Three things are
      left out.  The exponent range of the format is not modelled (no
      overflow to an infinity, no subnormal numbers), nor is the sign of
      zero: the values computed from int64 counts stay far inside the range.
      Lengths and counts of array entries are converted exactly ([of_int]):
      they are below 2^53.  And the result of [round(x, 2)] is kept as the
      hundredth it prints as ([round2]).
    - numpy arrays are Python objects: [plot_confusion_matrix] receives a
      reference into a heap of arrays, and its calls into [matplotlib.pyplot]
      are recorded, in order, in a trace. *)

From Stdlib Require Import String ZArith QArith Qround Qabs Qpower Bool Lia Lqa
  List.
Import ListNotations.
From Stdlib Require Qcanon.

Local Open Scope Z_scope.

(** ** Exceptions *)

(** What the libraries can raise on the inputs considered here. *)
Inductive library_failure : Type :=
| ShapeMismatch    (* operands of an elementwise operator do not broadcast:
                      numpy's ValueError; numpy releases before 1.25 return
                      the scalar False from [==] instead and the [.sum()]
                      that follows raises AttributeError *)
| EmptyReduction   (* ValueError: zero-size array to reduction operation
                      maximum which has no identity *).

(** An exception is raised by a library (or the runtime), or it is an
    instance of an exception class the notebooks define and raise
    themselves. *)
Inductive exn : Type :=
| LibraryError (f : library_failure)
| Custom (name : string).

Definition is_custom (e : exn) : bool :=
  match e with
  | Custom _ => true
  | LibraryError _ => false
  end.

Definition exn_named (name : string) (e : exn) : Prop := e = Custom name.

Inductive result (A : Type) : Type :=
| Value (a : A)
| Raise (e : exn).
Arguments Value {A} a.
Arguments Raise {A} e.

(** ** Numbers *)

Definition wrap64 (z : Z) : Z := (z + 2 ^ 63) mod 2 ^ 64 - 2 ^ 63.

(** A float64: a number, an infinity, or NaN. *)
Inductive float64 : Type :=
| Fin (q : Q)
| PInf
| NInf
| NaN.

(** Round to the nearest integer, ties to the even one ([np.rint]). *)
Definition rint (q : Q) : Z :=
  let f := Qfloor q in
  match (q - inject_Z f ?= 1 # 2)%Q with
  | Lt => f
  | Gt => f + 1
  | Eq => if Z.even f then f else f + 1
  end.

(** The binade of a positive rational: the [e] with 2^e <= q < 2^(e+1).  The
    difference of the two logarithms is [e] or [e + 1]. *)
Definition binade (q : Q) : Z :=
  let g := Z.log2 (Qnum q) - Z.log2 (Z.pos (Qden q)) in
  if Qle_bool (2 ^ g) q then g else g - 1.

(** The unit in the last place: binary64 numbers in the binade of [q] are the
    multiples of [ulp q], their significands having 53 bits. *)
Definition ulp (q : Q) : Q := (2 ^ (binade q - 52))%Q.

(** The nearest multiple of the unit in the last place, for positive [q]. *)
Definition binary64_pos (q : Q) : Q :=
  (inject_Z (rint (q / ulp q)) * ulp q)%Q.

(** The binary64 number nearest to [q], ties to the even significand: the
    rounding of every IEEE operation. *)
Definition binary64 (q : Q) : Q :=
  match (q ?= 0)%Q with
  | Eq => 0
  | Gt => binary64_pos q
  | Lt => - binary64_pos (- q)
  end%Q.

(** The float64 an operation with exact result [q] returns. *)
Definition double (q : Q) : float64 := Fin (Qred (binary64 q)).

(** Conversion of a length or of a count of array entries ([len(target)],
    [comparison.sum()]) and of a pixel: such integers are far below 2^53,
    where the conversion is exact. *)
Definition of_int (z : Z) : float64 := Fin (inject_Z z).

(** Conversion of an int64 entry of an array: to the nearest float64. *)
Definition of_int64 (z : Z) : float64 := double (inject_Z z).

(** [x / y] of IEEE arithmetic (numpy's [true_divide]).  numpy does not raise
    on a zero divisor: it warns and yields an infinity or NaN. *)
Definition fdiv (x y : float64) : float64 :=
  match x, y with
  | NaN, _ => NaN
  | _, NaN => NaN
  | Fin a, Fin b =>
      if Qeq_bool b 0 then
        match a ?= 0 with
        | Eq => NaN
        | Gt => PInf
        | Lt => NInf
        end%Q
      else double (a / b)
  | Fin _, PInf => Fin 0
  | Fin _, NInf => Fin 0
  | PInf, Fin b => if Qle_bool 0 b then PInf else NInf
  | NInf, Fin b => if Qle_bool 0 b then NInf else PInf
  | PInf, PInf => NaN
  | PInf, NInf => NaN
  | NInf, PInf => NaN
  | NInf, NInf => NaN
  end.

(** [x > y]; every comparison with NaN is False. *)
Definition fgt (x y : float64) : bool :=
  match x, y with
  | NaN, _ => false
  | _, NaN => false
  | Fin a, Fin b => negb (Qle_bool a b)
  | PInf, PInf => false
  | PInf, _ => true
  | NInf, _ => false
  | Fin _, PInf => false
  | Fin _, NInf => true
  end.

(** [np.maximum]: NaN propagates. *)
Definition fmax (x y : float64) : float64 :=
  match x, y with
  | NaN, _ => NaN
  | _, NaN => NaN
  | _, _ => if fgt y x then y else x
  end.

(** [round(x, 2)] on a float64 scalar.  numpy multiplies by 100.0, rounds the
    product to the nearest integer [k] and divides by 100.0.  The product is
    a binary64 product: it is rounded before [rint] sees it, which decides
    the cases where [x * 100] is close to a half.  The quotient is the
    float64 nearest to the hundredth [k / 100], the number Python prints with
    two decimals; it is kept here as that hundredth. *)
Definition round2 (x : float64) : float64 :=
  match x with
  | Fin q => Fin (Qred (inject_Z (rint (binary64 (q * 100))) / 100))
  | other => other
  end.

(** ** One-dimensional arrays and [model_accuracy] *)

(** [a == b] on two one-dimensional integer arrays.  Equal lengths compare
    position by position; an array of length one is broadcast against the
    other; any other pair of lengths does not broadcast. *)
Fixpoint eq_elementwise (a b : list Z) : list bool :=
  match a, b with
  | x :: a', y :: b' => (x =? y) :: eq_elementwise a' b'
  | _, _ => []
  end.

Definition np_equal (a b : list Z) : result (list bool) :=
  if (length a =? length b)%nat then Value (eq_elementwise a b)
  else
    match a, b with
    | [x], _ => Value (map (fun y => x =? y) b)
    | _, [y] => Value (map (fun x => x =? y) a)
    | _, _ => Raise (LibraryError ShapeMismatch)
    end.

(** [.sum()] of a boolean array: the number of True entries, as an int64.  An
    array has fewer than 2^63 elements, so the count cannot wrap. *)
Fixpoint sum_bool (l : list bool) : Z :=
  match l with
  | [] => 0
  | b :: l' => (if b then 1 else 0) + sum_bool l'
  end.

(** ** Two-dimensional arrays *)

(** A two-dimensional array is a list of rows; its dtype is int64 or
    float64. *)
Inductive ndarray : Type :=
| IntArray (rows : list (list Z))
| FloatArray (rows : list (list float64)).

(** What indexing an array with [a[i, j]] returns. *)
Inductive scalar : Type :=
| I (z : Z)
| F (x : float64).

Definition to_float (s : scalar) : float64 :=
  match s with
  | I z => of_int64 z
  | F x => x
  end.

Definition width {A : Type} (rows : list (list A)) : nat :=
  match rows with
  | [] => 0%nat
  | r :: _ => length r
  end.

Definition shape0 (a : ndarray) : nat :=
  match a with
  | IntArray rows => length rows
  | FloatArray rows => length rows
  end.

Definition shape1 (a : ndarray) : nat :=
  match a with
  | IntArray rows => width rows
  | FloatArray rows => width rows
  end.

(** Every row of a numpy array has [shape1] entries. *)
Definition rectangular (a : ndarray) : Prop :=
  match a with
  | IntArray rows => Forall (fun r => length r = width rows) rows
  | FloatArray rows => Forall (fun r => length r = width rows) rows
  end.

(** [a[i, j]], for [i] and [j] inside the shape. *)
Definition item (a : ndarray) (i j : nat) : scalar :=
  match a with
  | IntArray rows => I (nth j (nth i rows []) 0)
  | FloatArray rows => F (nth j (nth i rows []) NaN)
  end.

Definition floats (a : ndarray) : list (list float64) :=
  match a with
  | IntArray rows => map (map of_int64) rows
  | FloatArray rows => rows
  end.

(** [a.astype('float')]: a new float64 array. *)
Definition astype_float (a : ndarray) : ndarray := FloatArray (floats a).

(** Sum of an int64 row: every addition wraps around. *)
Definition np_sum_int (r : list Z) : Z :=
  fold_left (fun acc x => wrap64 (acc + x)) r 0.

(** [x + y] of IEEE arithmetic: the sum of two numbers is rounded. *)
Definition fadd (x y : float64) : float64 :=
  match x, y with
  | NaN, _ => NaN
  | _, NaN => NaN
  | Fin a, Fin b => double (a + b)
  | PInf, NInf => NaN
  | NInf, PInf => NaN
  | PInf, _ => PInf
  | _, PInf => PInf
  | NInf, _ => NInf
  | _, NInf => NInf
  end.

(** Sum of a float64 row, entry after entry. *)
Definition np_sum_float (r : list float64) : float64 :=
  fold_left fadd r (Fin 0).

(** [a.sum(axis=1)[:, np.newaxis]]: the row sums as a column of shape
    (shape0, 1), of the dtype of [a]. *)
Definition sum_axis1_column (a : ndarray) : ndarray :=
  match a with
  | IntArray rows => IntArray (map (fun r => [np_sum_int r]) rows)
  | FloatArray rows => FloatArray (map (fun r => [np_sum_float r]) rows)
  end.

(** Floating-point conditions numpy reports as RuntimeWarning. *)
Inductive fp_warning : Type :=
| DivideByZero   (* divide by zero encountered *)
| InvalidValue   (* invalid value encountered: 0/0, inf/inf *).

Definition fdiv_flag (x y : float64) : option fp_warning :=
  match x, y with
  | Fin a, Fin b =>
      if Qeq_bool b 0 then
        if Qeq_bool a 0 then Some InvalidValue else Some DivideByZero
      else None
  | PInf, PInf => Some InvalidValue
  | PInf, NInf => Some InvalidValue
  | NInf, PInf => Some InvalidValue
  | NInf, NInf => Some InvalidValue
  | _, _ => None
  end.

(** [a / col] where [col] has one entry per row of [a]: the entry is
    broadcast along the row. *)
Definition divide_rows (rows col : list (list float64)) : list (list float64) :=
  map (fun rc => map (fun x => fdiv x (hd NaN (snd rc))) (fst rc))
      (combine rows col).

Definition divide_rows_flags (rows col : list (list float64))
  : list (option fp_warning) :=
  concat (map (fun rc => map (fun x => fdiv_flag x (hd NaN (snd rc))) (fst rc))
              (combine rows col)).

Definition true_divide (a col : ndarray) : ndarray :=
  FloatArray (divide_rows (floats a) (floats col)).

Definition is_divide_by_zero (f : option fp_warning) : bool :=
  match f with
  | Some DivideByZero => true
  | _ => false
  end.

Definition is_invalid_value (f : option fp_warning) : bool :=
  match f with
  | Some InvalidValue => true
  | _ => false
  end.

(** The warnings of one elementwise division: each kind at most once. *)
Definition true_divide_warnings (a col : ndarray) : list fp_warning :=
  let flags := divide_rows_flags (floats a) (floats col) in
  (if existsb is_divide_by_zero flags then [DivideByZero] else [])
  ++ (if existsb is_invalid_value flags then [InvalidValue] else []).

(** [a.max()]: the maximum over all entries; an array without entries has
    none. *)
Definition np_max (a : ndarray) : result scalar :=
  match a with
  | IntArray rows =>
      match concat rows with
      | [] => Raise (LibraryError EmptyReduction)
      | x :: l => Value (I (fold_left Z.max l x))
      end
  | FloatArray rows =>
      match concat rows with
      | [] => Raise (LibraryError EmptyReduction)
      | x :: l => Value (F (fold_left fmax l x))
      end
  end.

(** [np.arange(n)] and [range(n)]. *)
Definition arange (n : nat) : list nat := seq 0 n.

(** [itertools.product(xs, ys)]: the pairs in row-major order. *)
Definition product (xs ys : list nat) : list (nat * nat) := list_prod xs ys.

(** ** The Python side: a heap of arrays and a trace of pyplot calls *)

Definition loc : Type := nat.
Definition colormap : Type := string.
Bind Scope string_scope with colormap.

(** The calls into [matplotlib.pyplot] the helper makes, with the arguments
    it passes.  Grid positions are (x, y) = (column, row).  [Imshow] carries
    the contents of the array at the time of the call: that is what the heat
    map is drawn from. *)
Inductive plt_call (label : Type) : Type :=
| Figure (w h : nat)
| Imshow (data : ndarray) (interpolation : string) (cmap : colormap)
| Title (s : string)
| Colorbar
| Xticks (ticks : list nat) (labels : list label) (rotation : nat)
| Yticks (ticks : list nat) (labels : list label)
| Text (x y : nat) (s : scalar) (horizontalalignment color : string)
| TightLayout
| Ylabel (s : string)
| Xlabel (s : string)
| Show.
Arguments Figure {label} w h.
Arguments Imshow {label} data interpolation cmap.
Arguments Title {label} s.
Arguments Colorbar {label}.
Arguments Xticks {label} ticks labels rotation.
Arguments Yticks {label} ticks labels.
Arguments Text {label} x y s horizontalalignment color.
Arguments TightLayout {label}.
Arguments Ylabel {label} s.
Arguments Xlabel {label} s.
Arguments Show {label}.

Record world (label : Type) : Type := World {
  heap : list ndarray;             (* the arrays that exist, by reference *)
  calls : list (plt_call label);   (* pyplot calls made so far, oldest first *)
  warnings : list fp_warning       (* RuntimeWarnings issued so far *)
}.
Arguments World {label} heap calls warnings.
Arguments heap {label} w.
Arguments calls {label} w.
Arguments warnings {label} w.

(** A computation changes the world and returns a value or raises; what it
    did before raising stays done. *)
Definition py (label A : Type) : Type := world label -> world label * result A.

Definition ret {label A : Type} (a : A) : py label A :=
  fun w => (w, Value a).

Definition bind {label A B : Type} (c : py label A) (k : A -> py label B)
  : py label B :=
  fun w =>
    match c w with
    | (w', Value a) => k a w'
    | (w', Raise e) => (w', Raise e)
    end.

Declare Scope py_scope.
Delimit Scope py_scope with py.
Notation "x <- c ;; k" := (bind c (fun x => k))
  (at level 61, c at next level, right associativity) : py_scope.
Notation "c ;; k" := (bind c (fun _ => k))
  (at level 61, right associativity) : py_scope.
Local Open Scope py_scope.

Definition lift {label A : Type} (r : result A) : py label A :=
  fun w => (w, r).

(** A name always refers to a live object: references are below the length
    of the heap, and the default is not read. *)
Definition deref (h : list ndarray) (r : loc) : ndarray :=
  nth r h (IntArray []).

Definition load {label : Type} (r : loc) : py label ndarray :=
  fun w => (w, Value (deref (heap w) r)).

(** A new object: the heap grows, no existing object changes. *)
Definition alloc {label : Type} (a : ndarray) : py label loc :=
  fun w => (World (heap w ++ [a]) (calls w) (warnings w),
            Value (length (heap w))).

(** An update in place ([a[i, j] = v], [a /= b]): the object at [r] changes
    and every name that refers to it sees the change.  The helpers contain
    no such statement. *)
Fixpoint replace_at (h : list ndarray) (r : loc) (a : ndarray)
  : list ndarray :=
  match h, r with
  | [], _ => []
  | _ :: h', O => a :: h'
  | b :: h', S r' => b :: replace_at h' r' a
  end.

Definition store {label : Type} (r : loc) (a : ndarray) : py label unit :=
  fun w => (World (replace_at (heap w) r a) (calls w) (warnings w), Value tt).

Definition warn {label : Type} (ws : list fp_warning) : py label unit :=
  fun w => (World (heap w) (calls w) (warnings w ++ ws), Value tt).

Definition plt {label : Type} (c : plt_call label) : py label unit :=
  fun w => (World (heap w) (calls w ++ [c]) (warnings w), Value tt).

(** [for x in xs: body(x)] *)
Fixpoint for_each {label A : Type} (xs : list A) (body : A -> py label unit)
  : py label unit :=
  match xs with
  | [] => ret tt
  | x :: xs' => body x ;; for_each xs' body
  end.

(** Array methods on references. *)
Module np.

Definition astype_float {label : Type} (r : loc) : py label loc :=
  a <- load r ;; alloc (astype_float a).

Definition sum_axis1_column {label : Type} (r : loc) : py label loc :=
  a <- load r ;; alloc (sum_axis1_column a).

Definition true_divide {label : Type} (r c : loc) : py label loc :=
  a <- load r ;;
  col <- load c ;;
  warn (true_divide_warnings a col) ;;
  alloc (true_divide a col).

Definition max {label : Type} (r : loc) : py label scalar :=
  a <- load r ;; lift (np_max a).

Definition shape {label : Type} (r : loc) : py label (nat * nat) :=
  a <- load r ;; ret (shape0 a, shape1 a).

Definition getitem {label : Type} (r : loc) (i j : nat) : py label scalar :=
  a <- load r ;; ret (item a i j).

End np.

Definition text_color (v : scalar) (thresh : float64) : string :=
  if fgt (to_float v) thresh then "white"%string else "black"%string.

(** ** The scikit-learn notebook *)

Module Sklearn.

(** The notebook calls it on two one-dimensional numpy integer arrays, the
    predictions of the classifier and the test targets.

    def model_accuracy(pred, target):
        (docstring: Returns the accuracy of our model, the proportion of
         correct classifications relative to all datapoints.)
        n = len(target)
        comparison = pred == target
        correct = comparison.sum()
        return round(correct/n, 2) *)
Definition model_accuracy (pred target : list Z) : result float64 :=
  let n := Z.of_nat (length target) in
  match np_equal pred target with
  | Raise e => Raise e
  | Value comparison =>
      let correct := sum_bool comparison in
      Value (round2 (fdiv (of_int correct) (of_int n)))
  end.

(** def plot_confusion_matrix(cm, classes, normalize=False,
                              title='Confusion matrix', cmap=plt.cm.Blues):
        (docstring: This function prints and plots the confusion matrix.
         Normalization can be applied by setting `normalize=True`.)
        fig = plt.figure(figsize=(8, 8))
        plt.imshow(cm, interpolation='nearest', cmap=cmap)
        plt.title(title)
        plt.colorbar()
        tick_marks = np.arange(len(classes))
        plt.xticks(tick_marks, classes, rotation=45)
        plt.yticks(tick_marks, classes)
        if normalize:
            cm = cm.astype('float') / cm.sum(axis=1)[:, np.newaxis]
        thresh = cm.max() / 2.
        for i, j in itertools.product(range(cm.shape[0]), range(cm.shape[1])):
            plt.text(j, i, cm[i, j], horizontalalignment='center',
                     color='white' if cm[i, j] > thresh else 'black')
        plt.tight_layout()
        plt.ylabel('True label')
        plt.xlabel('Predicted label')
        plt.show() *)
Definition plot_confusion_matrix {label : Type}
    (cm : loc) (classes : list label) (normalize : bool)
    (title : string) (cmap : colormap) : py label unit :=
  plt (Figure 8 8) ;;
  image <- load cm ;;
  plt (Imshow image "nearest" cmap) ;;
  plt (Title title) ;;
  plt Colorbar ;;
  let tick_marks := arange (length classes) in
  plt (Xticks tick_marks classes 45) ;;
  plt (Yticks tick_marks classes) ;;
  cm <- (if normalize then
           num <- np.astype_float cm ;;
           den <- np.sum_axis1_column cm ;;
           np.true_divide num den
         else ret cm) ;;
  m <- np.max cm ;;
  let thresh := fdiv (to_float m) (Fin 2) in
  sh <- np.shape cm ;;
  for_each (product (arange (fst sh)) (arange (snd sh)))
    (fun ij =>
       let i := fst ij in
       let j := snd ij in
       v <- np.getitem cm i j ;;
       plt (Text j i v "center" (text_color v thresh))) ;;
  plt TightLayout ;;
  plt (Ylabel "True label") ;;
  plt (Xlabel "Predicted label") ;;
  plt Show.

End Sklearn.

(** ** The Keras notebook *)

Module Keras.

(** def plot_confusion_matrix(cm, classes, normalize=False,
                              title='Confusion matrix', cmap=plt.cm.Blues):
        (docstring: This function prints and plots the confusion matrix.
         Normalization can be applied by setting `normalize=True`.)
        fig = plt.figure(figsize=(8, 8))
        plt.imshow(cm, interpolation='nearest', cmap=cmap)
        plt.title(title)
        plt.colorbar()
        tick_marks = np.arange(len(classes))
        plt.xticks(tick_marks, classes, rotation=45)
        plt.yticks(tick_marks, classes)
        if normalize:
            cm = cm.astype('float') / cm.sum(axis=1)[:, np.newaxis]
        thresh = cm.max() / 2.
        for i, j in itertools.product(range(cm.shape[0]), range(cm.shape[1])):
            plt.text(j, i, cm[i, j], horizontalalignment='center',
                     color='white' if cm[i, j] > thresh else 'black')
        plt.tight_layout()
        plt.ylabel('True label')
        plt.xlabel('Predicted label')
        plt.show() *)
Definition plot_confusion_matrix {label : Type}
    (cm : loc) (classes : list label) (normalize : bool)
    (title : string) (cmap : colormap) : py label unit :=
  plt (Figure 8 8) ;;
  image <- load cm ;;
  plt (Imshow image "nearest" cmap) ;;
  plt (Title title) ;;
  plt Colorbar ;;
  let tick_marks := arange (length classes) in
  plt (Xticks tick_marks classes 45) ;;
  plt (Yticks tick_marks classes) ;;
  cm <- (if normalize then
           num <- np.astype_float cm ;;
           den <- np.sum_axis1_column cm ;;
           np.true_divide num den
         else ret cm) ;;
  m <- np.max cm ;;
  let thresh := fdiv (to_float m) (Fin 2) in
  sh <- np.shape cm ;;
  for_each (product (arange (fst sh)) (arange (snd sh)))
    (fun ij =>
       let i := fst ij in
       let j := snd ij in
       v <- np.getitem cm i j ;;
       plt (Text j i v "center" (text_color v thresh))) ;;
  plt TightLayout ;;
  plt (Ylabel "True label") ;;
  plt (Xlabel "Predicted label") ;;
  plt Show.

End Keras.

(** ** The grids of digits (cells after the accuracy, both notebooks) *)

(** What numpy raises in these cells. *)
Inductive runtime_error : Type :=
| IndexError (index size : nat)   (* index out of bounds for axis 0 *)
| CannotReshape (size : nat)      (* ValueError: cannot reshape array *).

(** [a[i]] for a non-negative [i]. *)
Definition index_axis0 {A : Type} (a : list A) (i : nat)
  : A + runtime_error :=
  match nth_error a i with
  | Some x => inl x
  | None => inr (IndexError i (length a))
  end.

(** [count] consecutive pieces of [size] elements each. *)
Fixpoint chunks {A : Type} (size count : nat) (l : list A) : list (list A) :=
  match count with
  | O => []
  | S count' => firstn size l :: chunks size count' (skipn size l)
  end.

(** [X.reshape(-1, side, side)] on a two-dimensional array: the entries in
    row-major order, cut into images of [side] rows of [side] pixels.  The
    number of entries has to be a multiple of [side * side]. *)
Definition reshape_images {pixel : Type} (side : nat) (X : list (list pixel))
  : list (list (list pixel)) + runtime_error :=
  let flat := concat X in
  let per_image := (side * side)%nat in
  if (per_image =? 0)%nat then inr (CannotReshape (length flat))
  else if (length flat mod per_image =? 0)%nat
  then inl (map (chunks side side)
                (chunks per_image (length flat / per_image) flat))
  else inr (CannotReshape (length flat)).

(** The calls on the figure and its axes. *)
Inductive grid_call (pixel : Type) : Type :=
| GridFigure (w h : nat)
| SubplotsAdjust (left right bottom top hspace wspace : Q)
| AddSubplot (nrows ncols index : nat)     (* with xticks=[], yticks=[] *)
| AxImshow (image : list (list pixel)) (cmap interpolation : string)
| AxText (x y : nat) (s : Z) (color : string)   (* the text is str(s) *).
Arguments GridFigure {pixel} w h.
Arguments SubplotsAdjust {pixel} left right bottom top hspace wspace.
Arguments AddSubplot {pixel} nrows ncols index.
Arguments AxImshow {pixel} image cmap interpolation.
Arguments AxText {pixel} x y s color.

(** One pass of the loop body, for index [i]: the calls made, and the error
    that ended the pass if one did.

        ax = fig.add_subplot(8, 8, i + 1, xticks=[], yticks=[])
        ax.imshow(X_test.reshape(-1, side, side)[i], cmap=plt.cm.binary,
                  interpolation='nearest')
        if predicted[i] == expected[i]:
            ax.text(0, 7, str(predicted[i]), color='green')
        else:
            ax.text(0, 7, str(predicted[i]), color='red') *)
Definition grid_cell {pixel : Type} (side : nat) (X_test : list (list pixel))
    (predicted expected : list Z) (i : nat)
  : list (grid_call pixel) * option runtime_error :=
  let ax := AddSubplot 8 8 (i + 1) in
  match reshape_images side X_test with
  | inr e => ([ax], Some e)
  | inl images =>
      match index_axis0 images i with
      | inr e => ([ax], Some e)
      | inl image =>
          let shown := AxImshow image "binary" "nearest" in
          match index_axis0 predicted i with
          | inr e => ([ax; shown], Some e)
          | inl p =>
              match index_axis0 expected i with
              | inr e => ([ax; shown], Some e)
              | inl e =>
                  if p =? e
                  then ([ax; shown; AxText 0 7 p "green"], None)
                  else ([ax; shown; AxText 0 7 p "red"], None)
              end
          end
      end
  end.

(** [for i in indices: body(i)], stopping at the first error. *)
Fixpoint grid_loop {pixel : Type}
    (body : nat -> list (grid_call pixel) * option runtime_error)
    (indices : list nat) : list (grid_call pixel) * option runtime_error :=
  match indices with
  | [] => ([], None)
  | i :: rest =>
      match body i with
      | (made, Some e) => (made, Some e)
      | (made, None) =>
          let later := grid_loop body rest in
          (made ++ fst later, snd later)
      end
  end.

(** The whole cell.  In the scikit-learn notebook the digits are 8 x 8
    ([side] is 8) and [expected = y_test]; in the Keras notebook they are
    28 x 28 and [expected] is computed first, see [KerasCells.digit_grid].

        fig = plt.figure(figsize=(8, 8))
        fig.subplots_adjust(left=0, right=1, bottom=0, top=1,
                            hspace=0.05, wspace=0.05)
        for i in range(64): ... *)
Definition digit_grid {pixel : Type} (side : nat) (X_test : list (list pixel))
    (predicted expected : list Z)
  : list (grid_call pixel) * option runtime_error :=
  let cells := grid_loop (grid_cell side X_test predicted expected)
                         (seq 0 64) in
  ([GridFigure 8 8; SubplotsAdjust 0 1 0 1 (1 # 20) (1 # 20)] ++ fst cells,
   snd cells).

(** The two notebooks, and the helper each one defines. *)
Inductive notebook : Type :=
| SklearnNotebook
| KerasNotebook.

Definition plot_confusion_matrix_of {label : Type} (nb : notebook)
  : loc -> list label -> bool -> string -> colormap -> py label unit :=
  match nb with
  | SklearnNotebook => Sklearn.plot_confusion_matrix
  | KerasNotebook => Keras.plot_confusion_matrix
  end.

(** ** Specification-side notions for accuracy *)

(** The number of indices [i < length target] with [pred[i] = target[i]]. *)
Definition matching_positions (pred target : list Z) : Z :=
  Z.of_nat (List.length
    (filter (fun i => nth i pred 0 =? nth i target 0)
            (seq 0 (List.length target)))).



(** The claim of C2 at inputs [pred] and [target]: a failure named
    InvalidInput. *)
Definition fails_with_invalid_input (pred target : list Z) : Prop :=
  exists e, Sklearn.model_accuracy pred target = Raise e
            /\ exn_named "InvalidInput" e.

(** ** Specification-side notions for the confusion-matrix plot *)

(** The sum of row [i], as [a.sum(axis=1)] computes it. *)
Definition row_sum (a : ndarray) (i : nat) : scalar :=
  match a with
  | IntArray rows => I (np_sum_int (nth i rows []))
  | FloatArray rows => F (np_sum_float (nth i rows []))
  end.

(** Entry (i, j) divided by the sum of row [i]. *)
Definition normalized_entry (a : ndarray) (i j : nat) : scalar :=
  F (fdiv (to_float (item a i j)) (to_float (row_sum a i))).

(** The matrix with every row divided by its sum. *)
Definition row_normalized (a : ndarray) : ndarray :=
  match a with
  | IntArray rows =>
      FloatArray
        (map (fun r =>
                map (fun x => fdiv (of_int64 x) (of_int64 (np_sum_int r))) r)
             rows)
  | FloatArray rows =>
      FloatArray (map (fun r => map (fun x => fdiv x (np_sum_float r)) r) rows)
  end.

(** The values the annotations are taken from. *)
Definition annotated (a : ndarray) (normalize : bool) : ndarray :=
  if normalize then row_normalized a else a.

Definition entries (a : ndarray) : list float64 := concat (floats a).

Definition is_nan (x : float64) : bool :=
  match x with
  | NaN => true
  | _ => false
  end.

(** [m] is the maximum of the entries of [a]: one of them, exceeded by
    none.  As in numpy, the maximum of entries that include a NaN is NaN. *)
Definition is_maximum (a : ndarray) (m : float64) : Prop :=
  if existsb is_nan (entries a) then m = NaN
  else In m (entries a) /\ forall x, In x (entries a) -> fgt x m = false.

(** The calls of a trace that place a text at grid position (x, y). *)
Definition is_text_at {label : Type} (x y : nat) (c : plt_call label) : bool :=
  match c with
  | Text x' y' _ _ _ => (x' =? x)%nat && (y' =? y)%nat
  | _ => false
  end.

Definition is_text {label : Type} (c : plt_call label) : bool :=
  match c with
  | Text _ _ _ _ _ => true
  | _ => false
  end.

Definition is_ticks {label : Type} (c : plt_call label) : bool :=
  match c with
  | Xticks _ _ _ => true
  | Yticks _ _ => true
  | _ => false
  end.

Definition is_imshow {label : Type} (c : plt_call label) : bool :=
  match c with
  | Imshow _ _ _ => true
  | _ => false
  end.

(** Running the helper of notebook [nb] from world [w]. *)
Definition run_plot {label : Type} (nb : notebook) (w : world label)
    (cm : loc) (classes : list label) (normalize : bool)
    (title : string) (cmap : colormap) : world label * result unit :=
  plot_confusion_matrix_of nb cm classes normalize title cmap w.

(** The pyplot calls a run added to the trace. *)
Definition new_calls {label : Type} (w w' : world label)
  : list (plt_call label) :=
  skipn (length (calls w)) (calls w').

Definition new_warnings {label : Type} (w w' : world label)
  : list fp_warning :=
  skipn (length (warnings w)) (warnings w').

(** What a run adds to the trace: the calls before the annotations, one
    annotation per cell, and the closing calls. *)
Definition preamble {label : Type} (a : ndarray) (classes : list label)
    (title : string) (cmap : colormap) : list (plt_call label) :=
  [Figure 8 8; Imshow a "nearest" cmap; Title title; Colorbar;
   Xticks (arange (length classes)) classes 45;
   Yticks (arange (length classes)) classes].

Definition annotation {label : Type} (a : ndarray) (thresh : float64)
    (ij : nat * nat) : plt_call label :=
  Text (snd ij) (fst ij) (item a (fst ij) (snd ij)) "center"
       (text_color (item a (fst ij) (snd ij)) thresh).

Definition annotations {label : Type} (a : ndarray) (thresh : float64)
  : list (plt_call label) :=
  map (annotation a thresh) (product (arange (shape0 a)) (arange (shape1 a))).

Definition epilogue {label : Type} : list (plt_call label) :=
  [TightLayout; Ylabel "True label"; Xlabel "Predicted label"; Show].

(** The arrays the normalization statement creates, in order. *)
Definition normalization_objects (a : ndarray) : list ndarray :=
  [astype_float a; sum_axis1_column a;
   true_divide (astype_float a) (sum_axis1_column a)].

(** The grid cell (i, j) among the pairs the loop visits. *)
Definition at_cell (i j : nat) (ij : nat * nat) : bool :=
  ((snd ij =? j) && (fst ij =? i))%nat.

(** The world and the result a run ends in, when [cm] is a live reference. *)
Definition outcome {label : Type} (w : world label) (cm : loc)
    (classes : list label) (normalize : bool) (title : string)
    (cmap : colormap) : world label * result unit :=
  let a := deref (heap w) cm in
  let shown := annotated a normalize in
  let objects := if normalize then normalization_objects a else [] in
  let issued :=
    if normalize
    then true_divide_warnings (astype_float a) (sum_axis1_column a)
    else [] in
  match np_max shown with
  | Raise e =>
      (World (heap w ++ objects)
             (calls w ++ preamble a classes title cmap)
             (warnings w ++ issued),
       Raise e)
  | Value m =>
      (World (heap w ++ objects)
             (calls w ++ preamble a classes title cmap
                ++ annotations shown (fdiv (to_float m) (Fin 2))
                ++ epilogue)
             (warnings w ++ issued),
       Value tt)
  end.

(** The value of cell (i, j) that is annotated: the entry divided by its
    row sum when [normalize] is set, the entry itself otherwise. *)
Definition cell_value (a : ndarray) (normalize : bool) (i j : nat) : scalar :=
  if normalize then normalized_entry a i j else item a i j.

(** The number an annotation shows, when it is finite. *)
Definition shown_number (s : scalar) : Q :=
  match s with
  | I z => inject_Z z
  | F (Fin q) => q
  | F _ => 0
  end.

Definition text_number {label : Type} (c : plt_call label) : Q :=
  match c with
  | Text _ _ s _ _ => shown_number s
  | _ => 0
  end.

(** The numbers the annotations of a trace show, one per cell. *)
Definition annotated_numbers {label : Type} (trace : list (plt_call label))
  : list Q :=
  map text_number (filter is_text trace).

(** [m] is the greatest number of [l]. *)
Definition is_greatest (l : list Q) (m : Q) : Prop :=
  (exists v, In v l /\ (v == m)%Q) /\ forall v, In v l -> (v <= m)%Q.

(** The colour of a number [v] when the greatest number is [m]: white when
    [v] is strictly greater than half of [m], black otherwise. *)
Definition color_by_half (v m : Q) : string :=
  if Qle_bool v (m / 2) then "black" else "white".

(** An integer that float64 holds exactly. *)
Definition held_exactly (z : Z) : Prop := Z.abs z <= 2 ^ 53.

(** The float64 a scalar is compared as is the number it shows. *)
Definition compared_exactly (s : scalar) : Prop :=
  to_float s = Fin (shown_number s)
  /\ (binary64 (shown_number s) == shown_number s)%Q.

(** The matrices of which the numbers shown are the numbers compared:
    without normalization the entries have to be held exactly by float64,
    the threshold being a float64; with normalization every annotation is a
    float64, and it is a number when no row sum is zero. *)
Definition compared_as_shown (rows : list (list Z)) (normalize : bool)
  : Prop :=
  if normalize then Forall (fun r => np_sum_int r <> 0) rows
  else Forall (Forall held_exactly) rows.

(** The sum of a row of counts, without wrap-around. *)
Definition total (r : list Z) : Z := fold_right Z.add 0 r.



(** A row of counts with a sample in it, the total of which float64 holds
    exactly. *)
Definition counts_row (r : list Z) : Prop :=
  Forall (fun x => 0 <= x) r /\ 0 < total r < 2 ^ 53.

(** A confusion matrix of two classes, alone in the heap. *)
Definition example_counts : ndarray := IntArray [[1; 3]; [2; 2]].

Definition example_world : world Z := World [example_counts] [] [].

(** The same matrix with no sample of the second class: a row of zeros. *)
Definition zero_row_counts : ndarray := IntArray [[1; 3]; [0; 0]].

Definition zero_row_world : world Z := World [zero_row_counts] [] [].

(** A matrix without entries. *)
Definition empty_world : world Z := World [IntArray []] [] [].

(** Counts beyond 2^53: 2^53 + 3 and 2^52 + 2. *)
Definition large_counts : ndarray :=
  IntArray [[9007199254740995; 4503599627370498]].

Definition large_counts_world : world Z := World [large_counts] [] [].

(** ** Further notions for accuracy *)

(** The number of entries of [l] equal to [y]. *)
Definition occurrences (y : Z) (l : list Z) : Z :=
  Z.of_nat (count_occ Z.eq_dec l y).

(** ** Further notions for the confusion-matrix plot *)

(** The matrix cell (row, column) a text call annotates. *)
Definition text_cell {label : Type} (c : plt_call label) : nat * nat :=
  match c with
  | Text x y _ _ _ => (y, x)
  | _ => (0%nat, 0%nat)
  end.

(** ** Further notions for the grids of digits *)

(** The calls of one completed pass of the loop, for sample [i]. *)
Definition grid_cell_calls {pixel : Type} (side : nat)
    (X_test : list (list pixel)) (predicted expected : list Z) (i : nat)
  : list (grid_call pixel) :=
  [AddSubplot 8 8 (i + 1);
   AxImshow (chunks side side (nth i X_test [])) "binary" "nearest";
   AxText 0 7 (nth i predicted 0)
          (if nth i predicted 0 =? nth i expected 0 then "green" else "red")].

Definition is_red_text {pixel : Type} (c : grid_call pixel) : bool :=
  match c with
  | AxText _ _ _ color => String.eqb color "red"
  | _ => false
  end.

(** The samples among the first [n] whose prediction is wrong. *)
Definition wrong_among_first (n : nat) (predicted expected : list Z)
  : list nat :=
  filter (fun i => negb (nth i predicted 0 =? nth i expected 0)) (seq 0 n).

(** ** The Keras notebook: labels and pixels *)

(** Further failures of numpy in the cells of the Keras notebook. *)
Inductive data_error : Type :=
| ClassOutOfRange (y : Z) (num_classes : nat)
    (* IndexError: index y is out of bounds for axis 1 *)
| EmptySequence
    (* ValueError: attempt to get argmax of an empty sequence *)
| WrongSize (size : nat)
    (* ValueError: cannot reshape array of size ... *).

(** Row [hot] of the identity: 1.0 in column [hot], 0.0 elsewhere. *)
Definition one_hot (num_classes hot : nat) : list float64 :=
  map (fun c => if (c =? hot)%nat then Fin 1 else Fin 0) (seq 0 num_classes).

(** The column a label selects in [categorical[np.arange(n), y] = 1]: a
    negative index counts from the end. *)
Definition class_index (num_classes : nat) (y : Z) : nat + data_error :=
  let k := Z.of_nat num_classes in
  if (0 <=? y) && (y <? k) then inl (Z.to_nat y)
  else if (- k <=? y) && (y <? 0) then inl (Z.to_nat (y + k))
  else inr (ClassOutOfRange y num_classes).

Fixpoint class_indices (num_classes : nat) (y : list Z)
  : list nat + data_error :=
  match y with
  | [] => inl []
  | label :: rest =>
      match class_index num_classes label with
      | inr e => inr e
      | inl hot =>
          match class_indices num_classes rest with
          | inr e => inr e
          | inl hots => inl (hot :: hots)
          end
      end
  end.

(** [to_categorical(y, num_classes)] of Keras for a vector of integer labels
    and a given number of classes (10 in the notebook, a [positive] here:
    only without one does Keras derive it from the labels): one row per
    label, all zeros but a one in the column of the label. *)
Definition to_categorical (y : list Z) (num_classes : positive)
  : list (list float64) + data_error :=
  match class_indices (Pos.to_nat num_classes) y with
  | inr e => inr e
  | inl hots => inl (map (one_hot (Pos.to_nat num_classes)) hots)
  end.

(** [x] replaces the best value so far: it is greater, or it is the first
    NaN. *)
Definition replaces (x best : float64) : bool :=
  fgt x best || (is_nan x && negb (is_nan best)).

Fixpoint argmax_from (best_index : nat) (best : float64) (i : nat)
    (l : list float64) : nat :=
  match l with
  | [] => best_index
  | x :: l' =>
      if replaces x best then argmax_from i x (S i) l'
      else argmax_from best_index best (S i) l'
  end.

(** [np.argmax] of one row: the index of the first maximum. *)
Definition np_argmax (row : list float64) : nat + data_error :=
  match row with
  | [] => inr EmptySequence
  | x :: l => inl (argmax_from 0 x 1 l)
  end.

(** [np.argmax(m, axis=1)]: an int64 index per row. *)
Fixpoint np_argmax_axis1 (m : list (list float64)) : list Z + data_error :=
  match m with
  | [] => inl []
  | row :: rest =>
      match np_argmax row with
      | inr e => inr e
      | inl k =>
          match np_argmax_axis1 rest with
          | inr e => inr e
          | inl ks => inl (Z.of_nat k :: ks)
          end
      end
  end.

Definition feq (x y : float64) : bool :=
  match x, y with
  | Fin a, Fin b => Qeq_bool a b
  | PInf, PInf => true
  | NInf, NInf => true
  | NaN, NaN => true
  | _, _ => false
  end.

(** [x] sorts before [y]; NaN sorts last. *)
Definition sorts_before (x y : float64) : bool :=
  fgt y x || (is_nan y && negb (is_nan x)).

Fixpoint insert_unique (x : float64) (l : list float64) : list float64 :=
  match l with
  | [] => [x]
  | y :: l' =>
      if feq x y then l
      else if sorts_before x y then x :: l
      else y :: insert_unique x l'
  end.

(** [np.unique(a)]: the distinct entries of the array, in increasing
    order. *)
Definition np_unique (a : list (list float64)) : list float64 :=
  fold_right insert_unique [] (concat a).

(** [x.reshape(rows, cols)] on a stack of images: the entries in row-major
    order, cut into [rows] rows; the sizes have to agree. *)
Definition reshape_rows {A : Type} (rows cols : nat)
    (x : list (list (list A))) : list (list A) + data_error :=
  let flat := concat (concat x) in
  if (length flat =? rows * cols)%nat then inl (chunks cols rows flat)
  else inr (WrongSize (length flat)).

(** One pixel through [astype('float32')] and [/= 255]. *)
Definition scale_pixel (p : Z) : float64 := fdiv (of_int p) (Fin 255).

Module KerasCells.

(** x_train = x_train.reshape(60000, 784)
    x_train = x_train.astype('float32')
    x_train /= 255
    and the same for x_test with 10000 rows: [rows] is 60000 or 10000.  The
    division is in place, on the array [astype] has just created. *)
Definition flatten_and_scale (rows : nat) (x : list (list (list Z)))
  : list (list float64) + data_error :=
  match reshape_rows rows 784 x with
  | inr e => inr e
  | inl flat => inl (map (map scale_pixel) flat)
  end.

(** The grid of the Keras notebook: the digits are 28 x 28 and the expected
    classes are recovered from the one-hot rows
    ([expected = np.argmax(y_test, axis=1)], the first statement of the
    cell). *)
Definition digit_grid (x_test : list (list float64)) (predicted : list Z)
    (y_test : list (list float64))
  : (list (grid_call float64) * option runtime_error) + data_error :=
  match np_argmax_axis1 y_test with
  | inr e => inr e
  | inl expected => inl (digit_grid 28 x_test predicted expected)
  end.

(** plot_confusion_matrix(cm, classes=np.unique(y_test),
                          title='Confusion matrix, without normalization') *)
Definition plot_test_confusion (cm : loc) (y_test : list (list float64))
  : py float64 unit :=
  Keras.plot_confusion_matrix cm (np_unique y_test) false
    "Confusion matrix, without normalization" "Blues".

End KerasCells.

(** An image of [side] rows of [side] pixels between 0 and 255. *)
Definition gray_image (side : nat) (image : list (list Z)) : Prop :=
  length image = side
  /\ Forall (fun r => length r = side
                      /\ Forall (fun p => 0 <= p <= 255) r) image.

(** The entry is one of the two values of a one-hot row. *)
Definition is_bit (x : float64) : Prop := x = Fin 0 \/ x = Fin 1.




(** * Rounding to binary64 *)

(** ** Powers of two *)

Lemma pow2_pos (e : Z) : (0 < 2 ^ e)%Q.
Proof. apply Qpower_0_lt. reflexivity. Qed.

Lemma pow2_le (a b : Z) : a <= b -> (2 ^ a <= 2 ^ b)%Q.
Proof. intros H. apply Qpower_le_compat_l; [exact H | discriminate]. Qed.

Lemma pow2_add (a b : Z) : (2 ^ (a + b) == 2 ^ a * 2 ^ b)%Q.
Proof. apply Qpower_plus. discriminate. Qed.

Lemma pow2_sub (a b : Z) : (2 ^ (a - b) == 2 ^ a / 2 ^ b)%Q.
Proof. apply Qpower_minus. discriminate. Qed.

Lemma pow2_succ (a : Z) : (2 ^ (a + 1) == 2 * 2 ^ a)%Q.
Proof. rewrite pow2_add. change (2 ^ 1)%Q with 2%Q. ring. Qed.

Lemma pow2_inject (n : Z) : 0 <= n -> (inject_Z (2 ^ n) == 2 ^ n)%Q.
Proof. intros Hn. rewrite Zpower_Qpower by exact Hn. reflexivity. Qed.

Lemma Qdiv_lt_cross (a b c d : Q) :
  (0 < b)%Q -> (0 < d)%Q -> (a * d < c * b)%Q -> (a / b < c / d)%Q.
Proof.
  intros Hb Hd H.
  apply Qlt_shift_div_r; [exact Hb|].
  assert (E : (c / d * b == c * b / d)%Q) by (field; lra).
  rewrite E. apply Qlt_shift_div_l; assumption.
Qed.

Lemma binade_spec (q : Q) :
  (0 < q)%Q -> (2 ^ binade q <= q)%Q /\ (q < 2 ^ (binade q + 1))%Q.
Proof.
  intros Hq. unfold binade.
  destruct q as [a b]. 
  assert (Ha : 0 < a).
  { unfold Qlt in Hq. cbn in Hq. lia. }
  cbn [Qnum Qden].
  set (la := Z.log2 a). set (lb := Z.log2 (Z.pos b)).
  destruct (Z.log2_spec a Ha) as [Ha1 Ha2].
  destruct (Z.log2_spec (Z.pos b) (Pos2Z.is_pos b)) as [Hb1 Hb2].
  fold la in Ha1, Ha2. fold lb in Hb1, Hb2.
  assert (Hla : 0 <= la) by apply Z.log2_nonneg.
  assert (Hlb : 0 <= lb) by apply Z.log2_nonneg.
  rewrite Zle_Qle, pow2_inject in Ha1, Hb1 by assumption.
  rewrite Zlt_Qlt, pow2_inject in Ha2, Hb2 by lia.
  assert (Hq' : (a # b == inject_Z a / inject_Z (Z.pos b))%Q) by apply Qmake_Qdiv.
  pose proof (pow2_pos la) as Pla. pose proof (pow2_pos lb) as Plb.
  pose proof (pow2_pos (Z.succ la)) as Pla1.
  pose proof (pow2_pos (Z.succ lb)) as Plb1.
  assert (HB : (0 < inject_Z (Z.pos b))%Q) by lra.
  assert (HA : (0 < inject_Z a)%Q) by lra.
  assert (Hup : (a # b < 2 ^ (la - lb + 1))%Q).
  { replace (la - lb + 1) with (Z.succ la - lb) by lia.
    rewrite pow2_sub, Hq'. apply Qdiv_lt_cross; try assumption.
    apply Qle_lt_trans with (inject_Z a * inject_Z (Z.pos b))%Q.
    - apply Qmult_le_l; assumption.
    - apply Qmult_lt_r; assumption. }
  assert (Hlow : (2 ^ (la - lb - 1) < a # b)%Q).
  { replace (la - lb - 1) with (la - Z.succ lb) by lia.
    rewrite pow2_sub, Hq'. apply Qdiv_lt_cross; try assumption.
    apply Qle_lt_trans with (inject_Z a * inject_Z (Z.pos b))%Q.
    - apply Qmult_le_r; assumption.
    - apply Qmult_lt_l; assumption. }
  destruct (Qle_bool (2 ^ (la - lb)) (a # b)) eqn:E.
  - apply Qle_bool_iff in E. split; assumption.
  - split; [apply Qlt_le_weak; exact Hlow|].
    replace (la - lb - 1 + 1) with (la - lb) by lia.
    apply Qnot_le_lt. intros H. apply Qle_bool_iff in H. congruence.
Qed.

Lemma binade_unique (q : Q) (e : Z) :
  (2 ^ e <= q)%Q -> (q < 2 ^ (e + 1))%Q -> binade q = e.
Proof.
  intros Hlo Hhi.
  assert (Hq : (0 < q)%Q) by (pose proof (pow2_pos e); lra).
  destruct (binade_spec q Hq) as [Blo Bhi].
  destruct (Z.lt_trichotomy (binade q) e) as [H|[H|H]]; [|exact H|].
  - pose proof (pow2_le (binade q + 1) e ltac:(lia)). lra.
  - pose proof (pow2_le (e + 1) (binade q) ltac:(lia)). lra.
Qed.

(** ** Rounding to an integer *)

Lemma rint_near (q : Q) :
  (Qabs (inject_Z (rint q) - q) <= 1 # 2)%Q.
Proof.
  unfold rint.
  pose proof (Qfloor_le q) as Hlo.
  pose proof (Qlt_floor q) as Hhi.
  rewrite inject_Z_plus in Hhi.
  change (inject_Z 1) with 1%Q in Hhi.
  destruct (Qcompare_spec (q - inject_Z (Qfloor q)) (1 # 2)) as [He|Hl|Hg].
  - destruct (Z.even (Qfloor q)).
    + apply Qabs_Qle_condition. split; lra.
    + rewrite inject_Z_plus. change (inject_Z 1) with 1%Q.
      apply Qabs_Qle_condition. split; lra.
  - apply Qabs_Qle_condition. split; lra.
  - rewrite inject_Z_plus. change (inject_Z 1) with 1%Q.
    apply Qabs_Qle_condition. split; lra.
Qed.

Lemma rint_between (x : Q) (a b : Z) :
  (inject_Z a <= x)%Q -> (x <= inject_Z b)%Q -> a <= rint x <= b.
Proof.
  intros Hlo Hhi.
  pose proof (Qfloor_resp_le _ _ Hlo) as Ha. rewrite Qfloor_Z in Ha.
  pose proof (Qfloor_resp_le _ _ Hhi) as Hb. rewrite Qfloor_Z in Hb.
  pose proof (Qfloor_le x) as Hf.
  assert (Hup : (0 < x - inject_Z (Qfloor x))%Q -> Qfloor x + 1 <= b).
  { intros Hfrac.
    assert (H : (inject_Z (Qfloor x) < inject_Z b)%Q) by lra.
    rewrite <- Zlt_Qlt in H. lia. }
  unfold rint.
  destruct (Qcompare_spec (x - inject_Z (Qfloor x)) (1 # 2)) as [He|Hl|Hg].
  - destruct (Z.even (Qfloor x)); [lia|].
    split; [lia|]. apply Hup. lra.
  - lia.
  - split; [lia|]. apply Hup. lra.
Qed.

Lemma rint_comp (x y : Q) : (x == y)%Q -> rint x = rint y.
Proof.
  intros H. unfold rint.
  assert (Hf : Qfloor x = Qfloor y) by (apply Qfloor_comp; exact H).
  assert (Hc : (x - inject_Z (Qfloor x) ?= 1 # 2)%Q
               = (y - inject_Z (Qfloor y) ?= 1 # 2)%Q).
  { rewrite Hf. apply Qcompare_comp; [|reflexivity]. rewrite H. reflexivity. }
  rewrite Hc, Hf. reflexivity.
Qed.

(** Rounding to the nearest integer is monotone. *)
Lemma rint_mono (x y : Q) : (x <= y)%Q -> rint x <= rint y.
Proof.
  intros Hxy.
  destruct (Z_le_gt_dec (rint x) (rint y)) as [H|H]; [exact H|exfalso].
  pose proof (rint_near x) as Hx. pose proof (rint_near y) as Hy.
  apply Qabs_Qle_condition in Hx. apply Qabs_Qle_condition in Hy.
  assert (H1 : rint y + 1 <= rint x) by lia.
  rewrite Zle_Qle, inject_Z_plus in H1. change (inject_Z 1) with 1%Q in H1.
  assert (E : (x == y)%Q) by lra.
  pose proof (rint_comp x y E). lia.
Qed.

(** ** The rounded value *)

Lemma ulp_pos (q : Q) : (0 < ulp q)%Q.
Proof. apply pow2_pos. Qed.

(** The significand before rounding lies between 2^52 and 2^53. *)
Lemma significand_bounds (q : Q) :
  (0 < q)%Q ->
  (inject_Z (2 ^ 52) <= q / ulp q)%Q /\ (q / ulp q < inject_Z (2 ^ 53))%Q.
Proof.
  intros Hq. destruct (binade_spec q Hq) as [Hlo Hhi].
  pose proof (ulp_pos q) as Hu. unfold ulp in *.
  set (b := binade q) in *.
  assert (E1 : (2 ^ b == inject_Z (2 ^ 52) * 2 ^ (b - 52))%Q).
  { rewrite pow2_inject by lia. rewrite <- pow2_add. 
    replace (52 + (b - 52)) with b by lia. reflexivity. }
  assert (E2 : (2 ^ (b + 1) == inject_Z (2 ^ 53) * 2 ^ (b - 52))%Q).
  { rewrite pow2_inject by lia. rewrite <- pow2_add.
    replace (53 + (b - 52)) with (b + 1) by lia. reflexivity. }
  split.
  - apply Qle_shift_div_l; [exact Hu|]. rewrite <- E1. exact Hlo.
  - apply Qlt_shift_div_r; [exact Hu|]. rewrite <- E2. exact Hhi.
Qed.

Lemma significand_rounded (q : Q) :
  (0 < q)%Q -> 2 ^ 52 <= rint (q / ulp q) <= 2 ^ 53.
Proof.
  intros Hq. destruct (significand_bounds q Hq) as [Hlo Hhi].
  apply rint_between; lra.
Qed.

(** The rounded value stays in the closed binade of [q]. *)
Lemma binary64_pos_bounds (q : Q) :
  (0 < q)%Q ->
  (2 ^ binade q <= binary64_pos q)%Q
  /\ (binary64_pos q <= 2 ^ (binade q + 1))%Q.
Proof.
  intros Hq. destruct (significand_rounded q Hq) as [Hlo Hhi].
  pose proof (ulp_pos q) as Hu. unfold binary64_pos.
  set (k := rint (q / ulp q)) in *. unfold ulp in *.
  set (b := binade q) in *.
  assert (E1 : (2 ^ b == inject_Z (2 ^ 52) * 2 ^ (b - 52))%Q).
  { rewrite pow2_inject by lia. rewrite <- pow2_add. 
    replace (52 + (b - 52)) with b by lia. reflexivity. }
  assert (E2 : (2 ^ (b + 1) == inject_Z (2 ^ 53) * 2 ^ (b - 52))%Q).
  { rewrite pow2_inject by lia. rewrite <- pow2_add.
    replace (53 + (b - 52)) with (b + 1) by lia. reflexivity. }
  rewrite E1, E2. rewrite Zle_Qle in Hlo, Hhi.
  split; apply Qmult_le_r; assumption.
Qed.

Lemma binary64_pos_positive (q : Q) : (0 < q)%Q -> (0 < binary64_pos q)%Q.
Proof.
  intros Hq. destruct (binary64_pos_bounds q Hq) as [Hlo _].
  pose proof (pow2_pos (binade q)). lra.
Qed.


Lemma binade_mono (p q : Q) :
  (0 < p)%Q -> (p <= q)%Q -> binade p <= binade q.
Proof.
  intros Hp Hpq.
  destruct (binade_spec p Hp) as [Plo _].
  destruct (binade_spec q ltac:(lra)) as [_ Qhi].
  destruct (Z_le_gt_dec (binade p) (binade q)) as [H|H]; [exact H|exfalso].
  pose proof (pow2_le (binade q + 1) (binade p) ltac:(lia)). lra.
Qed.

(** Rounding is monotone. *)
Lemma binary64_pos_mono (p q : Q) :
  (0 < p)%Q -> (p <= q)%Q -> (binary64_pos p <= binary64_pos q)%Q.
Proof.
  intros Hp Hpq. assert (Hq : (0 < q)%Q) by lra.
  pose proof (binade_mono p q Hp Hpq) as Hb.
  destruct (Z.eq_dec (binade p) (binade q)) as [E|E].
  - unfold binary64_pos, ulp. rewrite E.
    pose proof (pow2_pos (binade q - 52)) as Hu.
    apply Qmult_le_r; [exact Hu|]. rewrite <- Zle_Qle.
    apply rint_mono. apply Qmult_le_r; [apply Qinv_lt_0_compat; exact Hu|].
    exact Hpq.
  - destruct (binary64_pos_bounds p Hp) as [_ Phi].
    destruct (binary64_pos_bounds q Hq) as [Qlo _].
    pose proof (pow2_le (binade p + 1) (binade q) ltac:(lia)). lra.
Qed.

Lemma binary64_positive (q : Q) : (0 < q)%Q -> binary64 q = binary64_pos q.
Proof.
  intros Hq. unfold binary64.
  destruct (Qcompare_spec q 0) as [H|H|H]; [lra | lra | reflexivity].
Qed.

Lemma binary64_negative (q : Q) :
  (q < 0)%Q -> binary64 q = (- binary64_pos (- q))%Q.
Proof.
  intros Hq. unfold binary64.
  destruct (Qcompare_spec q 0) as [H|H|H]; [lra | reflexivity | lra].
Qed.

Lemma binary64_nonneg (q : Q) : (0 <= q)%Q -> (0 <= binary64 q)%Q.
Proof.
  intros Hq. unfold binary64.
  destruct (Qcompare_spec q 0) as [H|H|H]; [lra | lra |].
  apply Qlt_le_weak, binary64_pos_positive, H.
Qed.

Lemma binary64_mono (p q : Q) :
  (0 <= p)%Q -> (p <= q)%Q -> (binary64 p <= binary64 q)%Q.
Proof.
  intros Hp Hpq. unfold binary64 at 1.
  destruct (Qcompare_spec p 0) as [H|H|H]; [|lra|].
  - apply binary64_nonneg. lra.
  - rewrite (binary64_positive q) by lra.
    apply binary64_pos_mono; assumption.
Qed.

(** Rounding does not vanish: only zero rounds to zero. *)
Lemma binary64_nonzero (q : Q) : ~ (q == 0)%Q -> ~ (binary64 q == 0)%Q.
Proof.
  intros Hq. unfold binary64.
  destruct (Qcompare_spec q 0) as [H|H|H]; [contradiction| |].
  - pose proof (binary64_pos_positive (- q) ltac:(lra)). lra.
  - pose proof (binary64_pos_positive q H). lra.
Qed.


(** What is a multiple of the unit in the last place is not changed. *)
Lemma binary64_pos_multiple (q : Q) (k : Z) :
  (0 < q)%Q -> (q == inject_Z k * ulp q)%Q -> (binary64_pos q == q)%Q.
Proof.
  intros Hq Hk. pose proof (ulp_pos q) as Hu. unfold binary64_pos.
  assert (Hs : (q / ulp q == inject_Z k)%Q).
  { rewrite Hk at 1. field. lra. }
  assert (Hr : rint (q / ulp q) = k).
  { rewrite (rint_comp _ _ Hs). unfold rint. rewrite Qfloor_Z.
    destruct (Qcompare_spec (inject_Z k - inject_Z k) (1 # 2)) as [He|Hl|Hg];
      [lra | reflexivity | lra]. }
  rewrite Hr. symmetry. exact Hk.
Qed.

(** Integers below 2^53 are binary64 numbers. *)
Lemma binary64_pos_integer (z : Z) :
  0 < z < 2 ^ 53 -> (binary64_pos (inject_Z z) == inject_Z z)%Q.
Proof.
  intros Hz.
  assert (Hq : (0 < inject_Z z)%Q).
  { change 0%Q with (inject_Z 0). rewrite <- Zlt_Qlt. lia. }
  destruct (binade_spec _ Hq) as [Hlo _].
  set (b := binade (inject_Z z)) in *.
  assert (Hb : b <= 52).
  { destruct (Z_le_gt_dec b 52) as [H|H]; [exact H|exfalso].
    pose proof (pow2_le 53 b ltac:(lia)) as H53.
    rewrite <- pow2_inject in H53 by lia.
    assert (Hz' : (inject_Z z < inject_Z (2 ^ 53))%Q)
      by (rewrite <- Zlt_Qlt; lia).
    lra. }
  apply (binary64_pos_multiple _ (z * 2 ^ (52 - b))); [exact Hq|].
  unfold ulp. fold b.
  rewrite inject_Z_mult, pow2_inject by lia.
  rewrite <- Qmult_assoc, <- pow2_add.
  replace (52 - b + (b - 52)) with 0 by lia.
  change (2 ^ 0)%Q with 1%Q. ring.
Qed.

Lemma binary64_integer (z : Z) :
  Z.abs z <= 2 ^ 53 -> (binary64 (inject_Z z) == inject_Z z)%Q.
Proof.
  intros Hz.
  destruct (Z.eq_dec z (2 ^ 53)) as [->|H1]; [vm_compute; reflexivity|].
  destruct (Z.eq_dec z (- 2 ^ 53)) as [->|H2]; [vm_compute; reflexivity|].
  destruct (Z.lt_trichotomy z 0) as [H|[->|H]].
  - rewrite binary64_negative
      by (change 0%Q with (inject_Z 0); rewrite <- Zlt_Qlt; exact H).
    change (- inject_Z z)%Q with (inject_Z (- z)).
    rewrite binary64_pos_integer by lia.
    rewrite inject_Z_opp. ring.
  - reflexivity.
  - rewrite binary64_positive
      by (change 0%Q with (inject_Z 0); rewrite <- Zlt_Qlt; exact H).
    apply binary64_pos_integer. lia.
Qed.

Lemma binade_comp (p q : Q) : (0 < p)%Q -> (p == q)%Q -> binade p = binade q.
Proof.
  intros Hp E. destruct (binade_spec p Hp) as [Hlo Hhi].
  symmetry. apply binade_unique; lra.
Qed.

Lemma binary64_pos_comp (p q : Q) :
  (0 < p)%Q -> (p == q)%Q -> binary64_pos p = binary64_pos q.
Proof.
  intros Hp E. unfold binary64_pos, ulp.
  rewrite (binade_comp p q Hp E).
  rewrite (rint_comp (p / 2 ^ (binade q - 52)) (q / 2 ^ (binade q - 52))).
  - reflexivity.
  - rewrite E. reflexivity.
Qed.

Lemma binary64_comp (p q : Q) : (p == q)%Q -> binary64 p = binary64 q.
Proof.
  intros E. unfold binary64.
  rewrite (Qcompare_comp p q E 0%Q 0%Q (Qeq_refl 0%Q)).
  destruct (Qcompare_spec q 0) as [H|H|H]; [reflexivity| |].
  - f_equal. apply binary64_pos_comp; lra.
  - apply binary64_pos_comp; lra.
Qed.

(** A binary64 number is not changed by rounding. *)
Lemma binary64_pos_idempotent (q : Q) :
  (0 < q)%Q -> (binary64_pos (binary64_pos q) == binary64_pos q)%Q.
Proof.
  intros Hq.
  destruct (significand_rounded q Hq) as [Klo Khi].
  destruct (binary64_pos_bounds q Hq) as [Blo Bhi].
  pose proof (binary64_pos_positive q Hq) as Hy.
  set (y := binary64_pos q) in *.
  set (k := rint (q / ulp q)) in *.
  set (b := binade q) in *.
  assert (Ey : (y == inject_Z k * 2 ^ (b - 52))%Q) by reflexivity.
  destruct (Z.eq_dec k (2 ^ 53)) as [E|E].
  - assert (Hb : binade y = b + 1).
    { apply binade_unique.
      - rewrite Ey, E, pow2_inject, <- pow2_add by lia.
        replace (53 + (b - 52)) with (b + 1) by lia. apply Qle_refl.
      - rewrite Ey, E, pow2_inject, <- pow2_add by lia.
        replace (53 + (b - 52)) with (b + 1) by lia.
        rewrite (pow2_succ (b + 1)). pose proof (pow2_pos (b + 1)). lra. }
    apply (binary64_pos_multiple y (2 ^ 52) Hy).
    unfold ulp. rewrite Hb, Ey, E, !pow2_inject, <- !pow2_add by lia.
    replace (53 + (b - 52)) with (52 + (b + 1 - 52)) by lia. reflexivity.
  - assert (Hb : binade y = b).
    { apply binade_unique; [exact Blo|].
      rewrite Ey.
      assert (E2 : (2 ^ (b + 1) == inject_Z (2 ^ 53) * 2 ^ (b - 52))%Q).
      { rewrite pow2_inject by lia. rewrite <- pow2_add.
        replace (53 + (b - 52)) with (b + 1) by lia. reflexivity. }
      rewrite E2. apply Qmult_lt_r; [apply pow2_pos|].
      rewrite <- Zlt_Qlt. lia. }
    apply (binary64_pos_multiple y k Hy).
    unfold ulp. rewrite Hb. exact Ey.
Qed.

Lemma binary64_idempotent (q : Q) :
  (binary64 (binary64 q) == binary64 q)%Q.
Proof.
  unfold binary64 at 2 3.
  destruct (Qcompare_spec q 0) as [H|H|H].
  - reflexivity.
  - pose proof (binary64_pos_positive (- q) ltac:(lra)) as Hy.
    rewrite binary64_negative by lra.
    rewrite (binary64_pos_comp (- - binary64_pos (- q)) (binary64_pos (- q)))
      by (try lra; ring).
    rewrite binary64_pos_idempotent by lra. reflexivity.
  - pose proof (binary64_pos_positive q H) as Hy.
    rewrite binary64_positive by exact Hy.
    apply binary64_pos_idempotent, H.
Qed.

(** Halving is exact. *)
Lemma binary64_pos_half (q : Q) :
  (0 < q)%Q -> (binary64_pos (q / 2) == binary64_pos q / 2)%Q.
Proof.
  intros Hq. destruct (binade_spec q Hq) as [Hlo Hhi].
  assert (Hb : binade (q / 2) = binade q - 1).
  { apply binade_unique.
    - pose proof (pow2_succ (binade q - 1)) as E.
      replace (binade q - 1 + 1) with (binade q) in E by lia.
      apply Qle_shift_div_l; [reflexivity|]. lra.
    - replace (binade q - 1 + 1) with (binade q) by lia.
      rewrite (pow2_succ (binade q)) in Hhi.
      apply Qlt_shift_div_r; [reflexivity|]. lra. }
  unfold binary64_pos, ulp. rewrite Hb.
  pose proof (pow2_succ (binade q - 1 - 52)) as E.
  replace (binade q - 1 - 52 + 1) with (binade q - 52) in E by lia.
  pose proof (pow2_pos (binade q - 1 - 52)) as Hu.
  set (u := (2 ^ (binade q - 1 - 52))%Q) in *.
  rewrite (rint_comp (q / 2 / u) (q / 2 ^ (binade q - 52))).
  - set (k := inject_Z (rint (q / 2 ^ (binade q - 52)))).
    rewrite E. field.
  - rewrite E. field. lra.
Qed.

Lemma binary64_half (q : Q) : (binary64 (q / 2) == binary64 q / 2)%Q.
Proof.
  unfold binary64 at 2.
  destruct (Qcompare_spec q 0) as [H|H|H].
  - rewrite (binary64_comp (q / 2) 0) by (rewrite H; reflexivity).
    reflexivity.
  - rewrite binary64_negative
      by (apply Qlt_shift_div_r; [reflexivity | lra]).
    rewrite (binary64_pos_comp (- (q / 2)) (- q / 2)).
    + rewrite binary64_pos_half by lra. field.
    + assert (H2 : (q / 2 < 0)%Q)
        by (apply Qlt_shift_div_r; [reflexivity | lra]).
      lra.
    + field.
  - rewrite binary64_positive
      by (apply Qlt_shift_div_l; [reflexivity | lra]).
    apply binary64_pos_half, H.
Qed.

(** ** Integers and reduced fractions *)

Lemma Qred_inject_Z (z : Z) : Qred (inject_Z z) = inject_Z z.
Proof.
  apply Qcanon.Qred_identity. cbn [Qnum Qden inject_Z]. apply Z.gcd_1_r.
Qed.

Lemma Qred_integer (q : Q) (z : Z) : (q == inject_Z z)%Q -> Qred q = inject_Z z.
Proof.
  intros H. rewrite (Qred_complete _ _ H). apply Qred_inject_Z.
Qed.

Lemma Qfloor_between (x : Q) (f : Z) :
  (inject_Z f <= x)%Q -> (x < inject_Z (f + 1))%Q -> Qfloor x = f.
Proof.
  intros Hlo Hhi.
  pose proof (Qfloor_resp_le _ _ Hlo) as H1. rewrite Qfloor_Z in H1.
  pose proof (Qfloor_le x) as H2.
  assert (H3 : (inject_Z (Qfloor x) < inject_Z (f + 1))%Q) by lra.
  rewrite <- Zlt_Qlt in H3. lia.
Qed.

Lemma rint_integer (z : Z) (x : Q) : (x == inject_Z z)%Q -> rint x = z.
Proof.
  intros Hx.
  assert (Hf : Qfloor x = z).
  { apply Qfloor_between; [lra|]. rewrite inject_Z_plus.
    change (inject_Z 1) with 1%Q. lra. }
  unfold rint. rewrite Hf.
  destruct (Qcompare_spec (x - inject_Z z) (1 # 2)) as [He|Hl|Hg];
    [lra | reflexivity | lra].
Qed.

Lemma rint_nonneg (x : Q) : (0 <= x)%Q -> 0 <= rint x.
Proof.
  intros Hx. pose proof (Qfloor_resp_le _ _ Hx) as Hf.
  change 0%Q with (inject_Z 0) in Hf. rewrite Qfloor_Z in Hf.
  unfold rint.
  destruct (x - inject_Z (Qfloor x) ?= 1 # 2)%Q;
    [destruct (Z.even (Qfloor x))| |]; lia.
Qed.

(** Integers up to 2^53 in magnitude are float64 numbers. *)
Lemma double_integer (z : Z) :
  Z.abs z <= 2 ^ 53 -> double (inject_Z z) = Fin (inject_Z z).
Proof.
  intros Hz. unfold double. f_equal.
  apply Qred_integer, binary64_integer, Hz.
Qed.

Lemma of_int64_exact (z : Z) :
  Z.abs z <= 2 ^ 53 -> of_int64 z = Fin (inject_Z z).
Proof. apply double_integer. Qed.

(** * Accuracy *)

Lemma sum_bool_count (pred target : list Z) (k : nat) :
  length pred = length target ->
  sum_bool (eq_elementwise pred target) =
  Z.of_nat (length
    (filter (fun i => nth (i - k) pred 0 =? nth (i - k) target 0)
            (seq k (length target)))).
Proof.
  revert target k.
  induction pred as [|x pred IH]; intros [|y target] k Hlen;
    simpl in Hlen; try discriminate; [reflexivity|].
  injection Hlen as Hlen.
  cbn [eq_elementwise sum_bool length seq].
  rewrite (IH target (S k) Hlen).
  set (f := fun i => nth (i - k) (x :: pred) 0 =? nth (i - k) (y :: target) 0).
  assert (Hshift :
    filter (fun i => nth (i - S k) pred 0 =? nth (i - S k) target 0)
           (seq (S k) (length target)) =
    filter f (seq (S k) (length target))).
  { apply filter_ext_in. intros i Hi. apply in_seq in Hi. unfold f.
    replace (i - k)%nat with (S (i - S k)) by lia. reflexivity. }
  rewrite Hshift.
  assert (Hk : f k = (x =? y)).
  { unfold f. rewrite Nat.sub_diag. reflexivity. }
  cbn [filter]. rewrite Hk.
  destruct (x =? y); cbn [length]; lia.
Qed.

Lemma sum_bool_matching (pred target : list Z) :
  length pred = length target ->
  sum_bool (eq_elementwise pred target) = matching_positions pred target.
Proof.
  intros Hlen. unfold matching_positions.
  rewrite (sum_bool_count pred target 0 Hlen).
  f_equal. f_equal. apply filter_ext. intros i.
  rewrite Nat.sub_0_r. reflexivity.
Qed.

(** What the function computes on arrays of equal length. *)
Lemma model_accuracy_equal_lengths (pred target : list Z) :
  length pred = length target ->
  Sklearn.model_accuracy pred target =
  Value (round2 (fdiv (of_int (matching_positions pred target))
                      (of_int (Z.of_nat (length target))))).
Proof.
  intros Hlen. unfold Sklearn.model_accuracy, np_equal.
  rewrite Hlen, Nat.eqb_refl, (sum_bool_matching pred target Hlen).
  reflexivity.
Qed.

Lemma fdiv_by_positive (c n : Z) :
  0 < n -> fdiv (of_int c) (of_int n) = double (inject_Z c / inject_Z n).
Proof.
  intros Hn. unfold fdiv, of_int.
  destruct (Qeq_bool (inject_Z n) 0) eqn:E; [|reflexivity].
  apply Qeq_bool_iff in E. apply (proj1 (inject_Z_injective n 0)) in E. lia.
Qed.

Lemma matching_positions_bounds (pred target : list Z) :
  0 <= matching_positions pred target <= Z.of_nat (length target).
Proof.
  unfold matching_positions.
  pose proof (filter_length_le
                (fun i => nth i pred 0 =? nth i target 0)
                (seq 0 (length target))) as H.
  rewrite length_seq in H. lia.
Qed.

Lemma Qdiv_unit_interval (c n : Z) :
  0 <= c <= n -> 0 < n ->
  (0 <= inject_Z c / inject_Z n)%Q /\ (inject_Z c / inject_Z n <= 1)%Q.
Proof.
  intros Hc Hn.
  assert (Hn' : (0 < inject_Z n)%Q).
  { change 0%Q with (inject_Z 0). rewrite <- Zlt_Qlt. exact Hn. }
  assert (Hc0 : (0 <= inject_Z c)%Q).
  { change 0%Q with (inject_Z 0). rewrite <- Zle_Qle. lia. }
  assert (Hcn : (inject_Z c <= inject_Z n)%Q).
  { rewrite <- Zle_Qle. lia. }
  split.
  - apply Qle_shift_div_l; [exact Hn' | lra].
  - apply Qle_shift_div_r; [exact Hn' | lra].
Qed.




(** Where the fraction is halfway between two hundredths the binary64
    arithmetic decides: 23 correct of 40 give 0.57, 109 of 200 give 0.55
    (11/20). *)
Lemma model_accuracy_at_ties :
  Sklearn.model_accuracy (repeat 7 23 ++ repeat 1 17) (repeat 7 40)
  = Value (Fin (57 # 100))
  /\ Sklearn.model_accuracy (repeat 7 109 ++ repeat 1 91) (repeat 7 200)
     = Value (Fin (11 # 20)).
Proof.
  split; vm_compute; reflexivity.
Qed.


(** C2, counterexample.  For two empty inputs the function does not fail: it
    returns NaN.  For inputs of lengths 1 and 3 it returns a number. *)
Lemma model_accuracy_no_invalid_input :
  ~ fails_with_invalid_input [] [] /\
  Sklearn.model_accuracy [] [] = Value NaN /\
  ~ fails_with_invalid_input [1] [1; 2; 1] /\
  Sklearn.model_accuracy [1] [1; 2; 1] = Value (Fin (67 # 100)).
Proof.
  repeat split; try reflexivity.
  - intros [e [H _]]. discriminate H.
  - intros [e [H _]]. discriminate H.
Qed.

(** C2, amended.  When the lengths differ and neither is 1, the elementwise
    comparison does not broadcast and the call fails with the library's
    exception; when both inputs are empty the call returns NaN. *)
Theorem model_accuracy_bad_shapes (pred target : list Z) :
  (length pred <> length target /\ length pred <> 1%nat
   /\ length target <> 1%nat)
  \/ (pred = [] /\ target = []) ->
  Sklearn.model_accuracy pred target =
  if (length pred =? length target)%nat then Value NaN
  else Raise (LibraryError ShapeMismatch).
Proof.
  intros [[Hne [Hp Ht]] | [Hp Ht]].
  - unfold Sklearn.model_accuracy, np_equal.
    apply Nat.eqb_neq in Hne. rewrite Hne.
    destruct pred as [|x [|x' pred]]; destruct target as [|y [|y' target]];
      simpl in Hp, Ht; congruence || reflexivity.
  - subst. reflexivity.
Qed.

Lemma model_accuracy_bad_shapes_witness :
  Sklearn.model_accuracy [1; 2; 1] [1; 2] = Raise (LibraryError ShapeMismatch)
  /\ Sklearn.model_accuracy [] [] = Value NaN.
Proof.
  split.
  - apply (model_accuracy_bad_shapes [1; 2; 1] [1; 2]).
    left. repeat split; simpl; lia.
  - apply (model_accuracy_bad_shapes [] []).
    right. split; reflexivity.
Defined.

(** * The confusion-matrix plot *)

(** ** Running computations *)

Section Running.
Context {label : Type}.

Lemma run_bind_plt {B : Type} (c : plt_call label) (k : unit -> py label B)
    (w : world label) :
  bind (plt c) k w = k tt (World (heap w) (calls w ++ [c]) (warnings w)).
Proof. reflexivity. Qed.

Lemma run_bind_load {B : Type} (r : loc) (k : ndarray -> py label B)
    (w : world label) :
  bind (load r) k w = k (deref (heap w) r) w.
Proof. reflexivity. Qed.

Lemma run_bind_alloc {B : Type} (a : ndarray) (k : loc -> py label B)
    (w : world label) :
  bind (alloc a) k w =
  k (length (heap w)) (World (heap w ++ [a]) (calls w) (warnings w)).
Proof. reflexivity. Qed.

Lemma run_bind_warn {B : Type} (ws : list fp_warning)
    (k : unit -> py label B) (w : world label) :
  bind (warn ws) k w = k tt (World (heap w) (calls w) (warnings w ++ ws)).
Proof. reflexivity. Qed.

Lemma run_bind_ret {A B : Type} (a : A) (k : A -> py label B)
    (w : world label) :
  bind (ret a) k w = k a w.
Proof. reflexivity. Qed.

Lemma run_bind_lift {A B : Type} (r : result A) (k : A -> py label B)
    (w : world label) :
  bind (lift r) k w =
  match r with
  | Value a => k a w
  | Raise e => (w, Raise e)
  end.
Proof. destruct r; reflexivity. Qed.

Lemma run_bind_assoc {A B C : Type} (c : py label A) (f : A -> py label B)
    (k : B -> py label C) (w : world label) :
  bind (bind c f) k w = bind c (fun x => bind (f x) k) w.
Proof.
  unfold bind. destruct (c w) as [w' [a|e]]; reflexivity.
Qed.

Lemma run_plt (c : plt_call label) (w : world label) :
  plt c w = (World (heap w) (calls w ++ [c]) (warnings w), Value tt).
Proof. reflexivity. Qed.

(** The annotation loop appends one [Text] per pair, in order, and touches
    nothing else. *)
Lemma run_annotation_loop {B : Type} (items : list (nat * nat)) (r : loc)
    (thresh : float64) (k : unit -> py label B) (w : world label) :
  bind (for_each items
          (fun ij =>
             bind (np.getitem r (fst ij) (snd ij))
                  (fun v => plt (Text (snd ij) (fst ij) v "center"
                                      (text_color v thresh)))))
       k w =
  k tt (World (heap w)
              (calls w ++ map (annotation (deref (heap w) r) thresh) items)
              (warnings w)).
Proof.
  revert w. induction items as [|ij items IH]; intros w.
  - cbn [for_each map]. rewrite run_bind_ret, app_nil_r.
    destruct w; reflexivity.
  - cbn [for_each map]. rewrite run_bind_assoc.
    unfold np.getitem at 1.
    rewrite !run_bind_assoc, run_bind_load, run_bind_ret, run_bind_plt.
    rewrite IH. cbn [heap calls warnings].
    rewrite <- app_assoc. reflexivity.
Qed.

End Running.

(** ** Normalization *)

Lemma divide_rows_int (rows : list (list Z)) :
  divide_rows (map (map of_int64) rows)
              (map (map of_int64) (map (fun r => [np_sum_int r]) rows)) =
  map (fun r => map (fun x => fdiv (of_int64 x) (of_int64 (np_sum_int r))) r)
      rows.
Proof.
  unfold divide_rows.
  induction rows as [|r rows IH]; [reflexivity|].
  cbn [map combine fst snd hd]. rewrite IH, map_map. reflexivity.
Qed.

Lemma divide_rows_float (rows : list (list float64)) :
  divide_rows rows (map (fun r => [np_sum_float r]) rows) =
  map (fun r => map (fun x => fdiv x (np_sum_float r)) r) rows.
Proof.
  unfold divide_rows.
  induction rows as [|r rows IH]; [reflexivity|].
  cbn [map combine fst snd hd]. rewrite IH. reflexivity.
Qed.

(** The three numpy operations of the normalization statement compute the
    row-normalized matrix. *)
Lemma normalization_computes (a : ndarray) :
  true_divide (astype_float a) (sum_axis1_column a) = row_normalized a.
Proof.
  destruct a as [rows|rows]; unfold true_divide; cbn [astype_float floats
    sum_axis1_column row_normalized].
  - rewrite divide_rows_int. reflexivity.
  - rewrite divide_rows_float. reflexivity.
Qed.

(** ** The whole run *)

Ltac py_step :=
  repeat first
    [ rewrite run_bind_assoc | rewrite run_bind_plt | rewrite run_bind_load
    | rewrite run_bind_alloc | rewrite run_bind_warn | rewrite run_bind_ret ];
  cbn [heap calls warnings].

Lemma deref_live (h extra : list ndarray) (r : loc) :
  (r < length h)%nat ->
  deref (h ++ extra) r = deref h r.
Proof.
  intros Hr. unfold deref. apply app_nth1. exact Hr.
Qed.

(** An update in place, by contrast, is seen through every reference to the
    object. *)
Lemma store_visible {label : Type} (w : world label) (r : loc)
    (a : ndarray) :
  (r < length (heap w))%nat ->
  deref (heap (fst (store r a w))) r = a.
Proof.
  unfold store, deref. cbn [fst heap]. generalize (heap w) as h. clear w.
  induction r as [|r IH]; intros [|b h] Hr; cbn [length] in Hr; try lia.
  - reflexivity.
  - cbn [replace_at nth]. apply IH. lia.
Qed.

Lemma deref_new (h extra : list ndarray) (a : ndarray) :
  deref (h ++ a :: extra) (length h) = a.
Proof.
  unfold deref. apply nth_middle.
Qed.

Lemma run_sklearn_plot {label : Type} (w : world label) (cm : loc)
    (classes : list label) (normalize : bool) (title : string)
    (cmap : colormap) :
  (cm < length (heap w))%nat ->
  Sklearn.plot_confusion_matrix cm classes normalize title cmap w =
  outcome w cm classes normalize title cmap.
Proof.
  intros Hlive. destruct w as [h c ws]. cbn [heap] in Hlive.
  unfold Sklearn.plot_confusion_matrix, outcome.
  py_step.
  destruct normalize; cbn [annotated].
  - unfold np.astype_float, np.sum_axis1_column, np.true_divide. py_step.
    rewrite (deref_live h _ cm Hlive).
    set (a := deref h cm).
    set (num := astype_float a). set (den := sum_axis1_column a).
    rewrite (deref_new (h ++ [num]) [] den).
    replace (deref ((h ++ [num]) ++ [den]) (length h)) with num
      by (rewrite <- app_assoc; symmetry; apply deref_new).
    replace (true_divide num den) with (row_normalized a)
      by (symmetry; apply normalization_computes).
    set (shown := row_normalized a).
    unfold np.max, np.shape. py_step.
    rewrite (deref_new ((h ++ [num]) ++ [den]) [] shown).
    rewrite run_bind_lift.
    destruct (np_max shown) as [m|e].
    + py_step. rewrite run_annotation_loop. py_step. rewrite run_plt.
      cbn [heap calls warnings fst snd].
      rewrite (deref_new ((h ++ [num]) ++ [den]) [] shown).
      unfold preamble, annotations, epilogue, normalization_objects.
      rewrite (normalization_computes a). fold num den shown.
      repeat rewrite <- app_assoc. reflexivity.
    + unfold preamble, normalization_objects.
      rewrite (normalization_computes a). fold num den shown.
      repeat rewrite <- app_assoc. reflexivity.
  - unfold np.max, np.shape. py_step.
    set (a := deref h cm).
    rewrite run_bind_lift.
    destruct (np_max a) as [m|e].
    + py_step. rewrite run_annotation_loop. py_step. rewrite run_plt.
      cbn [heap calls warnings fst snd]. fold a.
      unfold preamble, annotations, epilogue.
      rewrite !app_nil_r.
      repeat rewrite <- app_assoc. reflexivity.
    + unfold preamble. rewrite !app_nil_r.
      repeat rewrite <- app_assoc. reflexivity.
Qed.

Lemma run_keras_plot {label : Type} (w : world label) (cm : loc)
    (classes : list label) (normalize : bool) (title : string)
    (cmap : colormap) :
  Keras.plot_confusion_matrix cm classes normalize title cmap w =
  Sklearn.plot_confusion_matrix cm classes normalize title cmap w.
Proof. reflexivity. Qed.

Lemma run_plot_outcome {label : Type} (nb : notebook) (w : world label)
    (cm : loc) (classes : list label) (normalize : bool) (title : string)
    (cmap : colormap) :
  (cm < length (heap w))%nat ->
  run_plot nb w cm classes normalize title cmap =
  outcome w cm classes normalize title cmap.
Proof.
  intros Hlive. unfold run_plot.
  destruct nb; cbn [plot_confusion_matrix_of].
  - apply run_sklearn_plot, Hlive.
  - rewrite run_keras_plot. apply run_sklearn_plot, Hlive.
Qed.

(** ** Reading the trace *)

Lemma skipn_length_app {A : Type} (l extra : list A) :
  skipn (length l) (l ++ extra) = extra.
Proof.
  induction l as [|x l IH]; [reflexivity | exact IH].
Qed.

(** What a run adds to the trace. *)
Lemma new_calls_outcome {label : Type} (w : world label) (cm : loc)
    (classes : list label) (normalize : bool) (title : string)
    (cmap : colormap) :
  let a := deref (heap w) cm in
  let shown := annotated a normalize in
  new_calls w (fst (outcome w cm classes normalize title cmap)) =
  match np_max shown with
  | Raise _ => preamble a classes title cmap
  | Value m =>
      preamble a classes title cmap
      ++ annotations shown (fdiv (to_float m) (Fin 2)) ++ epilogue
  end.
Proof.
  cbv zeta. unfold outcome, new_calls.
  destruct (np_max (annotated (deref (heap w) cm) normalize));
    cbn [fst calls]; apply skipn_length_app.
Qed.

Lemma filter_eqb_nodup (l : list nat) (x : nat) :
  NoDup l ->
  filter (fun y => (y =? x)%nat) l = if in_dec Nat.eq_dec x l then [x] else [].
Proof.
  induction 1 as [|y l Hnotin Hnodup IH]; [reflexivity|].
  cbn [filter]. rewrite IH.
  destruct (Nat.eqb_spec y x) as [->|Hne].
  - destruct (in_dec Nat.eq_dec x l) as [Hin|_]; [contradiction|].
    destruct (in_dec Nat.eq_dec x (x :: l)) as [_|Hn]; [reflexivity|].
    exfalso. apply Hn. left. reflexivity.
  - destruct (in_dec Nat.eq_dec x l) as [Hin|Hn];
      destruct (in_dec Nat.eq_dec x (y :: l)) as [Hin'|Hn'];
      try reflexivity.
    + exfalso. apply Hn'. right. exact Hin.
    + destruct Hin' as [Heq|Hin']; [congruence | contradiction].
Qed.

Lemma filter_at_cell_row (x : nat) (ys : list nat) (i j : nat) :
  filter (at_cell i j) (map (pair x) ys) =
  if (x =? i)%nat then map (pair x) (filter (fun y => (y =? j)%nat) ys)
  else [].
Proof.
  induction ys as [|y ys IH]; [destruct (x =? i)%nat; reflexivity|].
  cbn [map filter]. unfold at_cell at 1. cbn [fst snd]. rewrite IH.
  destruct (x =? i)%nat, (y =? j)%nat; reflexivity.
Qed.

Lemma filter_at_cell_absent (xs ys : list nat) (i j : nat) :
  ~ In i xs -> filter (at_cell i j) (list_prod xs ys) = [].
Proof.
  induction xs as [|x xs IH]; intros Hnotin; [reflexivity|].
  cbn [list_prod]. rewrite filter_app, filter_at_cell_row.
  destruct (Nat.eqb_spec x i) as [->|Hne].
  - exfalso. apply Hnotin. left. reflexivity.
  - apply IH. intros Hin. apply Hnotin. right. exact Hin.
Qed.

Lemma filter_at_cell_product (xs ys : list nat) (i j : nat) :
  NoDup xs -> NoDup ys -> In i xs -> In j ys ->
  filter (at_cell i j) (product xs ys) = [(i, j)].
Proof.
  unfold product. intros Hxs Hys Hi Hj.
  induction Hxs as [|x xs Hnotin Hnodup IH]; [contradiction|].
  cbn [list_prod]. rewrite filter_app, filter_at_cell_row.
  rewrite (filter_eqb_nodup ys j Hys).
  destruct (in_dec Nat.eq_dec j ys) as [_|Hn]; [|contradiction].
  destruct (Nat.eqb_spec x i) as [->|Hne].
  - rewrite (filter_at_cell_absent xs ys i j Hnotin). reflexivity.
  - destruct Hi as [Heq|Hi]; [congruence|].
    cbn [app]. apply IH. exact Hi.
Qed.

(** Among the calls a successful run adds, the texts at grid position
    (j, i) of a cell inside the shape: exactly the annotation of (i, j). *)
Lemma texts_at_cell {label : Type} (a : ndarray) (classes : list label)
    (title : string) (cmap : colormap) (image : ndarray) (thresh : float64)
    (i j : nat) :
  (i < shape0 a)%nat -> (j < shape1 a)%nat ->
  filter (is_text_at j i)
         (preamble image classes title cmap
          ++ annotations a thresh ++ epilogue) =
  [annotation a thresh (i, j)].
Proof.
  intros Hi Hj.
  rewrite !filter_app. cbn [preamble epilogue filter is_text_at app].
  rewrite app_nil_r. unfold annotations.
  rewrite filter_map_swap.
  change (fun ij : nat * nat => is_text_at j i (annotation a thresh ij))
    with (at_cell i j).
  rewrite filter_at_cell_product.
  - reflexivity.
  - apply seq_NoDup.
  - apply seq_NoDup.
  - apply in_seq. lia.
  - apply in_seq. lia.
Qed.

(** ** The maximum *)

Lemma Qgt_bool_false (a b : Q) :
  negb (Qle_bool a b) = false <-> (a <= b)%Q.
Proof.
  rewrite negb_false_iff. apply Qle_bool_iff.
Qed.

Lemma Qgt_bool_true (a b : Q) :
  negb (Qle_bool a b) = true <-> (b < a)%Q.
Proof.
  rewrite negb_true_iff. split.
  - intros H. apply Qnot_le_lt. intros Hle.
    apply Qle_bool_iff in Hle. congruence.
  - intros H. destruct (Qle_bool a b) eqn:E; [|reflexivity].
    apply Qle_bool_iff in E. lra.
Qed.

Lemma fgt_irrefl (x : float64) : fgt x x = false.
Proof.
  destruct x; try reflexivity. cbn [fgt].
  apply Qgt_bool_false. lra.
Qed.

Lemma fgt_asym (x y : float64) : fgt x y = true -> fgt y x = false.
Proof.
  destruct x, y; cbn [fgt]; try discriminate; try reflexivity.
  rewrite Qgt_bool_true, Qgt_bool_false. lra.
Qed.

Lemma fle_trans (x y z : float64) :
  is_nan y = false ->
  fgt x y = false -> fgt y z = false -> fgt x z = false.
Proof.
  destruct x, y, z; cbn [fgt is_nan]; try discriminate; try reflexivity.
  rewrite !Qgt_bool_false. lra.
Qed.

Lemma is_nan_fmax (x y : float64) :
  is_nan (fmax x y) = is_nan x || is_nan y.
Proof.
  destruct x, y; cbn [fmax is_nan orb]; try reflexivity;
    match goal with
    | |- is_nan (if ?b then _ else _) = _ => destruct b; reflexivity
    end.
Qed.

Lemma fmax_cases (x y : float64) :
  is_nan x = false -> is_nan y = false ->
  (fmax x y = x \/ fmax x y = y)
  /\ fgt x (fmax x y) = false /\ fgt y (fmax x y) = false.
Proof.
  intros Hx Hy.
  assert (Hmax : fmax x y = if fgt y x then y else x).
  { destruct x, y; try discriminate; reflexivity. }
  rewrite Hmax. destruct (fgt y x) eqn:E.
  - repeat split; [right; reflexivity | apply fgt_asym, E | apply fgt_irrefl].
  - repeat split; [left; reflexivity | apply fgt_irrefl | exact E].
Qed.

Lemma fold_fmax_nan (l : list float64) : fold_left fmax l NaN = NaN.
Proof.
  induction l as [|y l IH]; [reflexivity | exact IH].
Qed.

Lemma fold_fmax_spec (l : list float64) (x : float64) :
  if existsb is_nan (x :: l) then fold_left fmax l x = NaN
  else In (fold_left fmax l x) (x :: l)
       /\ forall y, In y (x :: l) -> fgt y (fold_left fmax l x) = false.
Proof.
  revert x. induction l as [|y l IH]; intros x.
  - cbn [existsb fold_left orb]. rewrite orb_false_r.
    destruct (is_nan x) eqn:Hx.
    + destruct x; try discriminate. reflexivity.
    + split; [left; reflexivity|].
      intros z [<-|[]]. apply fgt_irrefl.
  - cbn [fold_left]. specialize (IH (fmax x y)).
    cbn [existsb] in IH |- *. rewrite is_nan_fmax in IH.
    rewrite orb_assoc.
    destruct (is_nan x) eqn:Hx; [exact IH|].
    destruct (is_nan y) eqn:Hy; [exact IH|].
    cbn [orb] in IH |- *.
    destruct (existsb is_nan l) eqn:Hl; [exact IH|].
    destruct IH as [Hin Hge].
    destruct (fmax_cases x y Hx Hy) as [Hcases [Hxm Hym]].
    assert (Hm : is_nan (fmax x y) = false).
    { rewrite is_nan_fmax, Hx, Hy. reflexivity. }
    split.
    + destruct Hin as [Heq|Hin].
      * rewrite <- Heq. destruct Hcases as [->| ->];
          [left | right; left]; reflexivity.
      * right. right. exact Hin.
    + intros z [<-|[<-|Hz]].
      * apply (fle_trans _ (fmax x y)); [exact Hm | exact Hxm|].
        apply Hge. left. reflexivity.
      * apply (fle_trans _ (fmax x y)); [exact Hm | exact Hym|].
        apply Hge. left. reflexivity.
      * apply Hge. right. exact Hz.
Qed.

Lemma fold_zmax_spec (l : list Z) (x : Z) :
  In (fold_left Z.max l x) (x :: l)
  /\ forall y, In y (x :: l) -> y <= fold_left Z.max l x.
Proof.
  revert x. induction l as [|y l IH]; intros x.
  - split; [left; reflexivity|]. intros z [<-|[]]. cbn. lia.
  - cbn [fold_left]. destruct (IH (Z.max x y)) as [Hin Hge]. split.
    + destruct Hin as [Heq|Hin].
      * rewrite <- Heq. destruct (Z.max_spec x y) as [[_ ->]|[_ ->]];
          [right; left | left]; reflexivity.
      * right. right. exact Hin.
    + intros z [<-|[<-|Hz]].
      * specialize (Hge (Z.max x y) (or_introl eq_refl)). lia.
      * specialize (Hge (Z.max x y) (or_introl eq_refl)). lia.
      * apply Hge. right. exact Hz.
Qed.

(** numpy's maximum of a float64 array is the maximum of the entries. *)
Lemma np_max_float_is_maximum (rows : list (list float64)) (m : scalar) :
  np_max (FloatArray rows) = Value m ->
  is_maximum (FloatArray rows) (to_float m).
Proof.
  unfold is_maximum, entries. cbn [np_max floats].
  destruct (concat rows) as [|x l]; [discriminate|].
  intros [= <-]. cbn [to_float]. apply fold_fmax_spec.
Qed.

Lemma np_max_defined (a : ndarray) :
  (0 < shape0 a)%nat -> (0 < shape1 a)%nat -> exists m, np_max a = Value m.
Proof.
  destruct a as [rows|rows]; cbn [shape0 shape1 np_max]; intros H0 H1;
    destruct rows as [|[|x r] rows]; cbn [width length] in *; try lia;
    cbn [concat app]; eexists; reflexivity.
Qed.

(** ** The normalized matrix, entry by entry *)

Lemma shape0_annotated (a : ndarray) (normalize : bool) :
  shape0 (annotated a normalize) = shape0 a.
Proof.
  destruct normalize; [|reflexivity].
  destruct a as [rows|rows]; cbn [annotated row_normalized shape0];
    apply length_map.
Qed.

Lemma shape1_annotated (a : ndarray) (normalize : bool) :
  shape1 (annotated a normalize) = shape1 a.
Proof.
  destruct normalize; [|reflexivity].
  destruct a as [[|r rows]|[|r rows]];
    cbn [annotated row_normalized shape1 width map];
    reflexivity || apply length_map.
Qed.

Lemma row_length {A : Type} (rows : list (list A)) (i : nat) :
  Forall (fun r => length r = width rows) rows ->
  (i < length rows)%nat ->
  length (nth i rows []) = width rows.
Proof.
  intros Hrect Hi. rewrite Forall_forall in Hrect.
  apply Hrect, nth_In, Hi.
Qed.

Lemma nth_map_in_range {A B : Type} (f : A -> B) (l : list A) (j : nat)
    (d : A) (d' : B) :
  (j < length l)%nat -> nth j (map f l) d' = f (nth j l d).
Proof.
  intros Hj. rewrite (nth_indep (map f l) d' (f d)).
  - apply map_nth.
  - rewrite length_map. exact Hj.
Qed.

Lemma item_row_normalized (a : ndarray) (i j : nat) :
  rectangular a -> (i < shape0 a)%nat -> (j < shape1 a)%nat ->
  item (row_normalized a) i j = normalized_entry a i j.
Proof.
  unfold normalized_entry.
  destruct a as [rows|rows];
    cbn [rectangular shape0 shape1 row_normalized item row_sum to_float];
    intros Hrect Hi Hj;
    pose proof (row_length rows i Hrect Hi) as Hlen.
  - rewrite (nth_map_in_range _ rows i [] []) by exact Hi.
    rewrite (nth_map_in_range _ (nth i rows []) j 0 NaN) by lia.
    reflexivity.
  - rewrite (nth_map_in_range _ rows i [] []) by exact Hi.
    rewrite (nth_map_in_range _ (nth i rows []) j NaN NaN) by lia.
    reflexivity.
Qed.

(** The value annotated at cell (i, j): the entry, normalized on request. *)
Lemma item_annotated (a : ndarray) (normalize : bool) (i j : nat) :
  rectangular a -> (i < shape0 a)%nat -> (j < shape1 a)%nat ->
  item (annotated a normalize) i j =
  if normalize then normalized_entry a i j else item a i j.
Proof.
  intros Hrect Hi Hj. destruct normalize; [|reflexivity].
  apply item_row_normalized; assumption.
Qed.

(** The texts a run places at the grid position of a cell. *)
Lemma run_plot_texts_at {label : Type} (nb : notebook) (w : world label)
    (cm : loc) (classes : list label) (normalize : bool) (title : string)
    (cmap : colormap) (i j : nat) :
  let a := deref (heap w) cm in
  let shown := annotated a normalize in
  (cm < length (heap w))%nat ->
  (i < shape0 a)%nat -> (j < shape1 a)%nat ->
  exists m,
    np_max shown = Value m /\
    filter (is_text_at j i)
      (new_calls w (fst (run_plot nb w cm classes normalize title cmap))) =
    [annotation shown (fdiv (to_float m) (Fin 2)) (i, j)].
Proof.
  intros a shown Hlive Hi Hj.
  rewrite (run_plot_outcome nb w cm classes normalize title cmap Hlive).
  rewrite new_calls_outcome. fold a. fold shown.
  assert (Hi' : (i < shape0 shown)%nat)
    by (unfold shown; rewrite shape0_annotated; exact Hi).
  assert (Hj' : (j < shape1 shown)%nat)
    by (unfold shown; rewrite shape1_annotated; exact Hj).
  destruct (np_max_defined shown) as [m Hm]; [lia | lia |].
  exists m. split; [exact Hm|]. rewrite Hm.
  apply texts_at_cell; assumption.
Qed.

(** ** What is drawn *)

Lemma filter_annotations_none {label : Type} (p : plt_call label -> bool)
    (a : ndarray) (thresh : float64) :
  (forall c, is_text c = true -> p c = false) ->
  filter p (annotations a thresh) = [].
Proof.
  intros Hp. unfold annotations.
  induction (product (arange (shape0 a)) (arange (shape1 a))) as [|ij l IH];
    [reflexivity|].
  cbn [map filter]. rewrite (Hp (annotation a thresh ij)) by reflexivity.
  exact IH.
Qed.

(** The image handed to [imshow] is the array [cm] refers to on entry,
    whatever [normalize] is. *)
Lemma imshow_receives_input {label : Type} (nb : notebook) (w : world label)
    (cm : loc) (classes : list label) (normalize : bool) (title : string)
    (cmap : colormap) :
  (cm < length (heap w))%nat ->
  filter is_imshow
    (new_calls w (fst (run_plot nb w cm classes normalize title cmap))) =
  [Imshow (deref (heap w) cm) "nearest" cmap].
Proof.
  intros Hlive.
  rewrite (run_plot_outcome nb w cm classes normalize title cmap Hlive).
  rewrite new_calls_outcome.
  destruct (np_max (annotated (deref (heap w) cm) normalize)) as [m|e].
  - rewrite !filter_app, filter_annotations_none
      by (intros [] Hc; discriminate || reflexivity).
    reflexivity.
  - reflexivity.
Qed.

(** C3.  With [normalize] set, on the matrix [[1, 3], [2, 2]], both
    notebooks' helpers hand the raw counts to [imshow]: the heat map shows
    1, 3, 2, 2, while the row-normalized values 1/4, 3/4, 1/2, 1/2 appear
    only in the annotations. *)
Theorem heat_map_shows_raw_counts (nb : notebook) :
  let trace :=
    calls (fst (run_plot nb example_world 0%nat [0; 1] true
                         "Confusion matrix" "Blues")) in
  filter is_imshow trace = [Imshow (IntArray [[1; 3]; [2; 2]]) "nearest" "Blues"]
  /\ row_normalized example_counts =
     FloatArray [[Fin (1 # 4); Fin (3 # 4)]; [Fin (1 # 2); Fin (1 # 2)]]
  /\ filter is_text trace =
     [Text 0 0 (F (Fin (1 # 4))) "center" "black";
      Text 1 0 (F (Fin (3 # 4))) "center" "white";
      Text 0 1 (F (Fin (1 # 2))) "center" "white";
      Text 1 1 (F (Fin (1 # 2))) "center" "white"].
Proof.
  destruct nb; vm_compute; repeat split.
Qed.

Lemma filter_is_text_annotations {label : Type} (a : ndarray)
    (thresh : float64) :
  filter (@is_text label) (annotations a thresh) = annotations a thresh.
Proof.
  unfold annotations.
  induction (product (arange (shape0 a)) (arange (shape1 a))) as [|ij l IH];
    [reflexivity|].
  cbn [map filter annotation is_text]. rewrite IH. reflexivity.
Qed.

(** ** The numbers shown and the numbers compared *)

Lemma item_in_concat {A : Type} (rows : list (list A)) (i j : nat) (d : A) :
  (i < length rows)%nat -> (j < length (nth i rows []))%nat ->
  In (nth j (nth i rows []) d) (concat rows).
Proof.
  intros Hi Hj. apply in_concat. exists (nth i rows []).
  split; [apply nth_In, Hi | apply nth_In, Hj].
Qed.

Lemma in_concat_item {A : Type} (rows : list (list A)) (x d : A) :
  In x (concat rows) ->
  exists i j, (i < length rows)%nat /\ (j < length (nth i rows []))%nat
              /\ nth j (nth i rows []) d = x.
Proof.
  intros H. apply in_concat in H. destruct H as [r [Hr Hx]].
  destruct (In_nth rows r [] Hr) as [i [Hi Ei]].
  destruct (In_nth r x d Hx) as [j [Hj Ej]].
  exists i, j. rewrite Ei. repeat split; assumption.
Qed.

Lemma rectangular_annotated (a : ndarray) (normalize : bool) :
  rectangular a -> rectangular (annotated a normalize).
Proof.
  destruct normalize; [|exact (fun H => H)].
  destruct a as [rows|rows]; cbn [annotated row_normalized rectangular];
    intros Hrect; apply Forall_forall; intros r' Hr';
    apply in_map_iff in Hr'; destruct Hr' as [r [<- Hr]];
    rewrite Forall_forall in Hrect; rewrite length_map, (Hrect r Hr);
    destruct rows as [|r0 rows]; cbn [width map]; try contradiction;
    rewrite length_map; reflexivity.
Qed.

Lemma double_compared_exactly (t : Q) : compared_exactly (F (double t)).
Proof.
  split; [reflexivity|]. cbn [shown_number double].
  rewrite (binary64_comp _ _ (Qred_correct (binary64 t))).
  rewrite Qred_correct. apply binary64_idempotent.
Qed.

Lemma integer_compared_exactly (z : Z) :
  held_exactly z -> compared_exactly (I z).
Proof.
  intros Hz. split.
  - cbn [to_float shown_number]. apply of_int64_exact, Hz.
  - cbn [shown_number]. apply binary64_integer, Hz.
Qed.

Lemma of_int64_nonzero (s : Z) :
  s <> 0 -> exists q : Q, of_int64 s = Fin q /\ Qeq_bool q 0 = false.
Proof.
  intros Hs. eexists. split; [reflexivity|].
  destruct (Qeq_bool (Qred (binary64 (inject_Z s))) 0) eqn:E; [|reflexivity].
  apply Qeq_bool_iff in E. rewrite Qred_correct in E.
  exfalso. revert E. apply binary64_nonzero. intros E.
  apply Hs. apply (proj1 (inject_Z_injective s 0)). exact E.
Qed.

(** A quotient by a sum that is not zero is the float64 nearest to a
    rational. *)
Lemma fdiv_of_int64 (x s : Z) :
  s <> 0 -> exists t : Q, fdiv (of_int64 x) (of_int64 s) = double t.
Proof.
  intros Hs. destruct (of_int64_nonzero s Hs) as [q [Hq Hnz]].
  rewrite Hq. unfold of_int64 at 1, double at 1. cbn [fdiv]. rewrite Hnz.
  eexists. reflexivity.
Qed.

(** On counts that float64 holds exactly the quotient is that of the
    counts. *)
Lemma fdiv_of_counts (x s : Z) :
  held_exactly x -> held_exactly s -> s <> 0 ->
  fdiv (of_int64 x) (of_int64 s) = double (inject_Z x / inject_Z s).
Proof.
  intros Hx Hs Hnz. rewrite (of_int64_exact x Hx), (of_int64_exact s Hs).
  cbn [fdiv].
  destruct (Qeq_bool (inject_Z s) 0) eqn:E; [|reflexivity].
  apply Qeq_bool_iff in E. apply (proj1 (inject_Z_injective s 0)) in E.
  contradiction.
Qed.

Lemma items_compared_exactly (rows : list (list Z)) (normalize : bool)
    (i j : nat) :
  rectangular (IntArray rows) ->
  compared_as_shown rows normalize ->
  (i < length rows)%nat -> (j < width rows)%nat ->
  compared_exactly (item (annotated (IntArray rows) normalize) i j).
Proof.
  intros Hrect Hdom Hi Hj.
  rewrite (item_annotated (IntArray rows) normalize i j Hrect Hi Hj).
  pose proof (row_length rows i Hrect Hi) as Hlen.
  destruct normalize; cbn [compared_as_shown] in Hdom.
  - unfold normalized_entry. cbn [item row_sum to_float].
    rewrite Forall_forall in Hdom.
    destruct (fdiv_of_int64 (nth j (nth i rows []) 0)
                (np_sum_int (nth i rows []))) as [t Ht].
    { apply Hdom, nth_In, Hi. }
    rewrite Ht. apply double_compared_exactly.
  - cbn [item]. apply integer_compared_exactly.
    rewrite Forall_forall in Hdom.
    specialize (Hdom (nth i rows []) (nth_In rows [] Hi)).
    rewrite Forall_forall in Hdom. apply Hdom, nth_In. lia.
Qed.

Lemma compared_exactly_finite (x : float64) :
  compared_exactly (F x) -> x = Fin (shown_number (F x)).
Proof. intros [H _]. exact H. Qed.

(** numpy's maximum is one of the entries and shows the greatest number. *)
Lemma np_max_greatest (a : ndarray) (ms : scalar) :
  rectangular a ->
  (forall i j, (i < shape0 a)%nat -> (j < shape1 a)%nat ->
               compared_exactly (item a i j)) ->
  np_max a = Value ms ->
  (exists i j, (i < shape0 a)%nat /\ (j < shape1 a)%nat /\ item a i j = ms)
  /\ (forall i j, (i < shape0 a)%nat -> (j < shape1 a)%nat ->
                  (shown_number (item a i j) <= shown_number ms)%Q).
Proof.
  destruct a as [rows|rows];
    cbn [rectangular shape0 shape1 item np_max]; intros Hrect Hheld Hmax.
  - destruct (concat rows) as [|x l] eqn:Hcat; [discriminate|].
    injection Hmax as <-.
    destruct (fold_zmax_spec l x) as [Hin Hge]. rewrite <- Hcat in Hin, Hge.
    split.
    + destruct (in_concat_item rows _ 0 Hin) as [i [j [Hi [Hj E]]]].
      exists i, j. rewrite (row_length rows i Hrect Hi) in Hj.
      rewrite E. repeat split; assumption.
    + intros i j Hi Hj. cbn [shown_number]. rewrite <- Zle_Qle.
      apply Hge, item_in_concat; [exact Hi|].
      rewrite (row_length rows i Hrect Hi). exact Hj.
  - assert (Hfin : forall y, In y (concat rows) ->
                             y = Fin (shown_number (F y))).
    { intros y Hy.
      destruct (in_concat_item rows y NaN Hy) as [i [j [Hi [Hj E]]]].
      rewrite (row_length rows i Hrect Hi) in Hj.
      specialize (Hheld i j Hi Hj). rewrite E in Hheld.
      apply compared_exactly_finite, Hheld. }
    destruct (concat rows) as [|x l] eqn:Hcat; [discriminate|].
    injection Hmax as <-.
    pose proof (fold_fmax_spec l x) as Hspec.
    assert (Hnan : existsb is_nan (x :: l) = false).
    { destruct (existsb is_nan (x :: l)) eqn:E; [|reflexivity].
      apply existsb_exists in E. destruct E as [y [Hy Hnan]].
      rewrite (Hfin y Hy) in Hnan. discriminate Hnan. }
    rewrite Hnan in Hspec. destruct Hspec as [Hin Hge].
    rewrite <- Hcat in Hin, Hge, Hfin. split.
    + destruct (in_concat_item rows _ NaN Hin) as [i [j [Hi [Hj E]]]].
      exists i, j. rewrite (row_length rows i Hrect Hi) in Hj.
      rewrite E. repeat split; assumption.
    + intros i j Hi Hj.
      assert (Hy : In (nth j (nth i rows []) NaN) (concat rows)).
      { apply item_in_concat; [exact Hi|].
        rewrite (row_length rows i Hrect Hi). exact Hj. }
      pose proof (Hge _ Hy) as Hle.
      rewrite (Hfin _ Hy) in Hle. rewrite (Hfin _ Hin) in Hle.
      cbn [fgt] in Hle. apply Qgt_bool_false in Hle. exact Hle.
Qed.

(** The texts of a successful run are the annotations. *)
Lemma run_plot_texts {label : Type} (nb : notebook) (w : world label)
    (cm : loc) (classes : list label) (normalize : bool) (title : string)
    (cmap : colormap) (m : scalar) :
  (cm < length (heap w))%nat ->
  np_max (annotated (deref (heap w) cm) normalize) = Value m ->
  filter is_text
    (new_calls w (fst (run_plot nb w cm classes normalize title cmap))) =
  annotations (annotated (deref (heap w) cm) normalize)
              (fdiv (to_float m) (Fin 2)).
Proof.
  intros Hlive Hm.
  rewrite (run_plot_outcome nb w cm classes normalize title cmap Hlive).
  rewrite new_calls_outcome, Hm.
  rewrite !filter_app, filter_is_text_annotations.
  cbn [preamble epilogue filter is_text app]. apply app_nil_r.
Qed.

(** The numbers annotated are those of the cells. *)
Lemma annotated_number_of_cell {label : Type} (a : ndarray)
    (thresh : float64) (v : Q) :
  In v (map (@text_number label) (annotations a thresh)) <->
  exists i j, (i < shape0 a)%nat /\ (j < shape1 a)%nat
              /\ v = shown_number (item a i j).
Proof.
  unfold annotations, product, arange. rewrite map_map. split.
  - intros H. apply in_map_iff in H. destruct H as [[i j] [<- Hij]].
    apply in_prod_iff in Hij. destruct Hij as [Hi Hj].
    apply in_seq in Hi. apply in_seq in Hj.
    exists i, j. repeat split; lia || reflexivity.
  - intros [i [j [Hi [Hj ->]]]]. apply in_map_iff. exists (i, j).
    split; [reflexivity|]. apply in_prod_iff. split; apply in_seq; lia.
Qed.

Lemma fdiv_fin_two (q : Q) : fdiv (Fin q) (Fin 2) = double (q / 2).
Proof. reflexivity. Qed.

Lemma Qle_bool_comp (a b c d : Q) :
  (a == c)%Q -> (b == d)%Q -> Qle_bool a b = Qle_bool c d.
Proof.
  intros Hac Hbd.
  destruct (Qle_bool a b) eqn:E1, (Qle_bool c d) eqn:E2; try reflexivity.
  - apply Qle_bool_iff in E1.
    assert (H : (c <= d)%Q) by lra. apply Qle_bool_iff in H. congruence.
  - apply Qle_bool_iff in E2.
    assert (H : (a <= b)%Q) by lra. apply Qle_bool_iff in H. congruence.
Qed.

(** The colour of an annotation that is compared as the number it shows,
    against half of a maximum that is. *)
Lemma text_color_by_half (v ms : scalar) (m : Q) :
  compared_exactly v -> compared_exactly ms ->
  (shown_number ms == m)%Q ->
  text_color v (fdiv (to_float ms) (Fin 2)) =
  color_by_half (shown_number v) m.
Proof.
  intros [Hv _] [Hm Hheld] Em. unfold text_color, color_by_half.
  rewrite Hv, Hm, fdiv_fin_two. unfold double. cbn [fgt].
  rewrite (Qle_bool_comp (shown_number v)
             (Qred (binary64 (shown_number ms / 2)))
             (shown_number v) (m / 2)).
  - destruct (Qle_bool (shown_number v) (m / 2)); reflexivity.
  - reflexivity.
  - rewrite Qred_correct, binary64_half, Hheld, Em. reflexivity.
Qed.

(** C4, counterexample.  Beyond 2^53 the rule fails: in the matrix
    [[2^53 + 3, 2^52 + 2]] the second count is more than half of the first,
    the greatest number shown, and its annotation is black.  The threshold
    is computed from the float64 nearest to the maximum, 2^53 + 4. *)
Lemma half_maximum_rule_fails_beyond_2_53 :
  is_greatest
    (annotated_numbers
       (new_calls large_counts_world
          (fst (run_plot SklearnNotebook large_counts_world 0%nat [0; 1]
                         false "Confusion matrix" "Blues"))))
    (inject_Z 9007199254740995)
  /\ filter (is_text_at 1 0)
       (new_calls large_counts_world
          (fst (run_plot SklearnNotebook large_counts_world 0%nat [0; 1]
                         false "Confusion matrix" "Blues"))) =
     [Text 1 0 (I 4503599627370498) "center" "black"]
  /\ color_by_half (inject_Z 4503599627370498) (inject_Z 9007199254740995)
     = "white"%string
  /\ (inject_Z 9007199254740995 / 2 < inject_Z 4503599627370498)%Q.
Proof.
  split; [|split; [|split]].
  - split.
    + exists (inject_Z 9007199254740995). split; [|reflexivity].
      vm_compute. left. reflexivity.
    + intros v Hv. vm_compute in Hv.
      destruct Hv as [<-|[<-|[]]]; vm_compute; discriminate.
  - vm_compute. reflexivity.
  - vm_compute. reflexivity.
  - vm_compute. reflexivity.
Qed.

(** C4, amended.  On a matrix of counts the annotation of cell (i, j), at
    grid position (j, i), is white exactly when the number it shows is
    strictly greater than half of the greatest number shown, and black
    otherwise: provided that, without normalization, float64 holds the
    entries exactly (magnitudes up to 2^53) and that, with normalization,
    no row sum is zero. *)
Theorem annotation_color_by_half_maximum {label : Type} (nb : notebook)
    (w : world label) (cm : loc) (rows : list (list Z))
    (classes : list label) (normalize : bool) (title : string)
    (cmap : colormap) (i j : nat) (m : Q) :
  (cm < length (heap w))%nat ->
  deref (heap w) cm = IntArray rows ->
  rectangular (IntArray rows) ->
  compared_as_shown rows normalize ->
  (i < length rows)%nat -> (j < width rows)%nat ->
  is_greatest
    (annotated_numbers
       (new_calls w (fst (run_plot nb w cm classes normalize title cmap))))
    m ->
  filter (is_text_at j i)
    (new_calls w (fst (run_plot nb w cm classes normalize title cmap))) =
  [Text j i (cell_value (IntArray rows) normalize i j) "center"
        (color_by_half
           (shown_number (cell_value (IntArray rows) normalize i j)) m)].
Proof.
  intros Hlive Ha Hrect Hdom Hi Hj Hgreatest.
  destruct (run_plot_texts_at nb w cm classes normalize title cmap i j Hlive)
    as [ms [Hms Htexts]]; try (rewrite Ha; assumption).
  unfold annotated_numbers in Hgreatest.
  rewrite (run_plot_texts nb w cm classes normalize title cmap ms Hlive Hms)
    in Hgreatest.
  rewrite Ha in Hms, Htexts, Hgreatest.
  set (a := IntArray rows) in *.
  set (shown := annotated a normalize) in *.
  assert (Hheld : forall i j, (i < shape0 shown)%nat -> (j < shape1 shown)%nat ->
                              compared_exactly (item shown i j)).
  { intros i' j' Hi' Hj'. unfold shown in Hi', Hj'.
    rewrite shape0_annotated in Hi'. rewrite shape1_annotated in Hj'.
    apply items_compared_exactly; assumption. }
  destruct (np_max_greatest shown ms (rectangular_annotated a normalize Hrect)
              Hheld Hms) as [[i0 [j0 [Hi0 [Hj0 Hitem]]]] Hge].
  assert (Hms_held : compared_exactly ms).
  { rewrite <- Hitem. apply Hheld; assumption. }
  assert (Em : (shown_number ms == m)%Q).
  { destruct Hgreatest as [[v [Hv Ev]] Hle].
    apply annotated_number_of_cell in Hv.
    destruct Hv as [i1 [j1 [Hi1 [Hj1 ->]]]].
    pose proof (Hge i1 j1 Hi1 Hj1) as H1.
    assert (H2 : (shown_number ms <= m)%Q).
    { apply Hle. apply annotated_number_of_cell.
      exists i0, j0. rewrite Hitem. repeat split; assumption. }
    lra. }
  rewrite Htexts. unfold annotation. cbn [fst snd].
  assert (Hi' : (i < shape0 shown)%nat)
    by (unfold shown; rewrite shape0_annotated; exact Hi).
  assert (Hj' : (j < shape1 shown)%nat)
    by (unfold shown; rewrite shape1_annotated; exact Hj).
  rewrite (text_color_by_half (item shown i j) ms m (Hheld i j Hi' Hj')
             Hms_held Em).
  unfold shown, cell_value.
  rewrite (item_annotated a normalize i j Hrect Hi Hj). reflexivity.
Qed.

Lemma annotation_color_by_half_maximum_witness :
  filter (is_text_at 1 0)
    (new_calls example_world
       (fst (run_plot SklearnNotebook example_world 0%nat [0; 1] true
                      "Confusion matrix" "Blues"))) =
  [Text 1 0 (F (Fin (3 # 4))) "center" "white"]
  /\ filter (is_text_at 0 0)
       (new_calls example_world
          (fst (run_plot SklearnNotebook example_world 0%nat [0; 1] true
                         "Confusion matrix" "Blues"))) =
     [Text 0 0 (F (Fin (1 # 4))) "center" "black"].
Proof.
  assert (Hgreatest :
    is_greatest
      (annotated_numbers
         (new_calls example_world
            (fst (run_plot SklearnNotebook example_world 0%nat [0; 1] true
                           "Confusion matrix" "Blues"))))
      (3 # 4)).
  { split.
    - exists (3 # 4)%Q. split; [|reflexivity].
      vm_compute. right. left. reflexivity.
    - intros v Hv. vm_compute in Hv.
      destruct Hv as [<-|[<-|[<-|[<-|[]]]]]; vm_compute; discriminate. }
  split.
  - apply (annotation_color_by_half_maximum SklearnNotebook example_world
             0%nat [[1; 3]; [2; 2]] [0; 1] true "Confusion matrix" "Blues"
             0%nat 1%nat (3 # 4)).
    + cbn. lia.
    + reflexivity.
    + cbn. repeat constructor.
    + cbn. repeat constructor; vm_compute; discriminate.
    + cbn. lia.
    + cbn. lia.
    + exact Hgreatest.
  - apply (annotation_color_by_half_maximum SklearnNotebook example_world
             0%nat [[1; 3]; [2; 2]] [0; 1] true "Confusion matrix" "Blues"
             0%nat 0%nat (3 # 4)).
    + cbn. lia.
    + reflexivity.
    + cbn. repeat constructor.
    + cbn. repeat constructor; vm_compute; discriminate.
    + cbn. lia.
    + cbn. lia.
    + exact Hgreatest.
Defined.

(** ** Row sums *)

Lemma wrap64_small (z : Z) : - 2 ^ 63 <= z < 2 ^ 63 -> wrap64 z = z.
Proof.
  intros Hz. unfold wrap64. rewrite Z.mod_small; lia.
Qed.

Lemma wrap64_range (z : Z) : - 2 ^ 63 <= wrap64 z < 2 ^ 63.
Proof.
  unfold wrap64.
  pose proof (Z.mod_pos_bound (z + 2 ^ 63) (2 ^ 64) ltac:(lia)). lia.
Qed.

Lemma wrap64_add_l (a b : Z) : wrap64 (wrap64 a + b) = wrap64 (a + b).
Proof.
  unfold wrap64. f_equal.
  replace ((a + 2 ^ 63) mod 2 ^ 64 - 2 ^ 63 + b + 2 ^ 63)
    with ((a + 2 ^ 63) mod 2 ^ 64 + b) by lia.
  rewrite Zplus_mod_idemp_l. f_equal. lia.
Qed.

Lemma np_sum_int_from (r : list Z) (acc : Z) :
  - 2 ^ 63 <= acc < 2 ^ 63 ->
  fold_left (fun acc x => wrap64 (acc + x)) r acc =
  wrap64 (acc + fold_right Z.add 0 r).
Proof.
  revert acc. induction r as [|x r IH]; intros acc Hacc.
  - cbn [fold_left fold_right]. rewrite Z.add_0_r.
    symmetry. apply wrap64_small, Hacc.
  - cbn [fold_left fold_right].
    rewrite (IH (wrap64 (acc + x)) (wrap64_range _)).
    rewrite wrap64_add_l. f_equal. lia.
Qed.

(** On counts whose total fits in 64 bits the wrapped sum is the sum. *)
Lemma np_sum_int_exact (r : list Z) :
  - 2 ^ 63 <= fold_right Z.add 0 r < 2 ^ 63 ->
  np_sum_int r = fold_right Z.add 0 r.
Proof.
  intros Hr. unfold np_sum_int.
  rewrite np_sum_int_from by lia. apply wrap64_small, Hr.
Qed.

(** A row of counts with a sample in it, below 2^63 in total, has a
    strictly positive sum. *)
Lemma np_sum_int_positive (r : list Z) :
  0 < fold_right Z.add 0 r < 2 ^ 63 -> 0 < np_sum_int r.
Proof.
  intros Hr. rewrite np_sum_int_exact; lia.
Qed.

Lemma np_sum_int_zeros (r : list Z) :
  Forall (fun x => x = 0) r -> np_sum_int r = 0.
Proof.
  intros Hr. rewrite np_sum_int_exact.
  - induction Hr as [|x r -> _ IH]; [reflexivity | exact IH].
  - replace (fold_right Z.add 0 r) with 0; [lia|].
    induction Hr as [|x r -> _ IH]; [reflexivity | exact IH].
Qed.

(** ** What an annotation shows *)

Lemma np_sum_int_total (r : list Z) :
  - 2 ^ 63 <= total r < 2 ^ 63 -> np_sum_int r = total r.
Proof. apply np_sum_int_exact. Qed.

Lemma total_app_entry (x : Z) (r : list Z) : total (x :: r) = x + total r.
Proof. reflexivity. Qed.

Lemma entry_le_total (r : list Z) (x : Z) :
  Forall (fun y => 0 <= y) r -> In x r -> 0 <= x <= total r.
Proof.
  induction 1 as [|y r Hy Hr IH]; intros Hin; [contradiction|].
  rewrite total_app_entry.
  assert (Ht : 0 <= total r).
  { clear IH Hin. induction Hr as [|z r Hz _ IH]; [cbn; lia|].
    rewrite total_app_entry. lia. }
  destruct Hin as [->|Hin]; [lia|]. specialize (IH Hin). lia.
Qed.

(** In a row of counts, an entry divided by the row sum as the helper
    computes it is the float64 quotient of the entry by the total. *)
Lemma quotient_of_counts (r : list Z) (x : Z) :
  counts_row r -> In x r ->
  fdiv (of_int64 x) (of_int64 (np_sum_int r))
  = double (inject_Z x / inject_Z (total r))
  /\ (0 <= inject_Z x / inject_Z (total r))%Q
  /\ (inject_Z x / inject_Z (total r) <= 1)%Q.
Proof.
  intros [Hnonneg Htotal] Hx.
  pose proof (entry_le_total r x Hnonneg Hx) as Hle.
  rewrite (np_sum_int_total r) by lia. split.
  - apply fdiv_of_counts; unfold held_exactly; lia.
  - apply Qdiv_unit_interval; lia.
Qed.



(** C7.  For class labels [classes] of length n, the helper sets the ticks
    of the x axis and of the y axis to the positions 0, ..., n-1, labelled
    with [classes] in the given order (the x labels rotated by 45 degrees),
    and sets ticks nowhere else. *)
Theorem ticks_labelled_with_classes {label : Type} (nb : notebook)
    (w : world label) (cm : loc) (classes : list label) (normalize : bool)
    (title : string) (cmap : colormap) :
  (cm < length (heap w))%nat ->
  filter is_ticks
    (new_calls w (fst (run_plot nb w cm classes normalize title cmap))) =
  [Xticks (seq 0 (length classes)) classes 45;
   Yticks (seq 0 (length classes)) classes].
Proof.
  intros Hlive.
  rewrite (run_plot_outcome nb w cm classes normalize title cmap Hlive).
  rewrite new_calls_outcome.
  destruct (np_max (annotated (deref (heap w) cm) normalize)) as [m|e].
  - rewrite !filter_app, filter_annotations_none
      by (intros [] Hc; discriminate || reflexivity).
    reflexivity.
  - reflexivity.
Qed.

Lemma ticks_labelled_with_classes_witness :
  filter is_ticks
    (new_calls example_world
       (fst (run_plot SklearnNotebook example_world 0%nat [7; 9] false
                      "Confusion matrix" "Blues"))) =
  [Xticks (seq 0 (length [7; 9])) [7; 9] 45;
   Yticks (seq 0 (length [7; 9])) [7; 9]].
Proof.
  apply (ticks_labelled_with_classes SklearnNotebook example_world 0%nat
           [7; 9] false "Confusion matrix" "Blues").
  cbn. lia.
Defined.

(** C8.  The helper of the Keras notebook and the helper of the
    scikit-learn notebook behave alike: from every world and on all
    arguments they end in the same world with the same result. *)
Theorem keras_helper_is_sklearn_helper {label : Type}
    (cm : loc) (classes : list label) (normalize : bool)
    (title : string) (cmap : colormap) (w : world label) :
  run_plot KerasNotebook w cm classes normalize title cmap =
  run_plot SklearnNotebook w cm classes normalize title cmap.
Proof.
  unfold run_plot. cbn [plot_confusion_matrix_of].
  unfold Keras.plot_confusion_matrix, Sklearn.plot_confusion_matrix.
  reflexivity.
Qed.

(** C9.  The helper does not change the array it is given, nor any other
    array that exists when it is called: with or without [normalize], every
    live reference holds the same array after the run; the float matrix of
    the normalization and its two operands are new objects, added to the
    heap. *)
Theorem input_matrix_not_mutated {label : Type} (nb : notebook)
    (w : world label) (cm : loc) (classes : list label) (normalize : bool)
    (title : string) (cmap : colormap) :
  (cm < length (heap w))%nat ->
  let w' := fst (run_plot nb w cm classes normalize title cmap) in
  deref (heap w') cm = deref (heap w) cm
  /\ (forall r, (r < length (heap w))%nat ->
                nth_error (heap w') r = nth_error (heap w) r)
  /\ heap w' =
     heap w ++ (if normalize
                then normalization_objects (deref (heap w) cm) else []).
Proof.
  intros Hlive.
  rewrite (run_plot_outcome nb w cm classes normalize title cmap Hlive).
  cbv zeta.
  set (objects := if normalize
                  then normalization_objects (deref (heap w) cm) else []).
  assert (Hheap : heap (fst (outcome w cm classes normalize title cmap)) =
                  heap w ++ objects).
  { unfold outcome.
    destruct (np_max (annotated (deref (heap w) cm) normalize)); reflexivity. }
  rewrite Hheap. split; [|split].
  - apply deref_live, Hlive.
  - intros r Hr. apply nth_error_app1, Hr.
  - reflexivity.
Qed.

Lemma input_matrix_not_mutated_witness :
  let w' := fst (run_plot SklearnNotebook example_world 0%nat [0; 1] true
                          "Confusion matrix" "Blues") in
  deref (heap w') 0%nat = deref (heap example_world) 0%nat
  /\ (forall r, (r < length (heap example_world))%nat ->
                nth_error (heap w') r = nth_error (heap example_world) r)
  /\ heap w' =
     heap example_world
     ++ normalization_objects (deref (heap example_world) 0%nat).
Proof.
  apply (input_matrix_not_mutated SklearnNotebook example_world 0%nat
           [0; 1] true "Confusion matrix" "Blues").
  cbn. lia.
Defined.

(** ** Division by zero in the normalization *)

Lemma divide_rows_flags_int (rows : list (list Z)) :
  divide_rows_flags (map (map of_int64) rows)
    (map (map of_int64) (map (fun r => [np_sum_int r]) rows)) =
  concat
    (map (fun r =>
            map (fun x => fdiv_flag (of_int64 x) (of_int64 (np_sum_int r))) r)
         rows).
Proof.
  unfold divide_rows_flags. f_equal.
  induction rows as [|r rows IH]; [reflexivity|].
  cbn [map combine fst snd hd]. rewrite IH, map_map. reflexivity.
Qed.

Lemma fdiv_flag_nonzero (x s : Z) :
  s <> 0 -> fdiv_flag (of_int64 x) (of_int64 s) = None.
Proof.
  intros Hs. destruct (of_int64_nonzero s Hs) as [q [Hq Hnz]].
  rewrite Hq. unfold of_int64, double. cbn [fdiv_flag]. rewrite Hnz.
  reflexivity.
Qed.

Lemma flags_none_when_sums_nonzero (rows : list (list Z)) :
  Forall (fun r => np_sum_int r <> 0) rows ->
  Forall (fun f => f = None)
    (concat
       (map (fun r =>
               map (fun x => fdiv_flag (of_int64 x) (of_int64 (np_sum_int r))) r)
            rows)).
Proof.
  induction 1 as [|r rows Hr _ IH]; [constructor|].
  cbn [map concat]. apply Forall_app. split; [|exact IH].
  apply Forall_forall. intros f Hf. apply in_map_iff in Hf.
  destruct Hf as [x [<- _]]. apply fdiv_flag_nonzero, Hr.
Qed.

Lemma existsb_none (p : option fp_warning -> bool)
    (flags : list (option fp_warning)) :
  p None = false ->
  Forall (fun f => f = None) flags -> existsb p flags = false.
Proof.
  intros Hp. induction 1 as [|f flags -> _ IH]; [reflexivity|].
  cbn [existsb]. rewrite Hp. exact IH.
Qed.

Lemma new_warnings_outcome {label : Type} (w : world label) (cm : loc)
    (classes : list label) (normalize : bool) (title : string)
    (cmap : colormap) :
  let a := deref (heap w) cm in
  new_warnings w (fst (outcome w cm classes normalize title cmap)) =
  if normalize
  then true_divide_warnings (astype_float a) (sum_axis1_column a)
  else [].
Proof.
  cbv zeta. unfold outcome, new_warnings.
  destruct (np_max (annotated (deref (heap w) cm) normalize));
    cbn [fst warnings]; apply skipn_length_app.
Qed.

(** C10.  With [normalize] set, on an integer matrix: when every row sum is
    strictly positive no division of the normalization has a zero divisor
    and numpy reports none; a matrix that contains a non-empty row of zeros
    reaches the division 0/0, which numpy reports as an invalid value. *)
Theorem normalization_divides_by_zero_only_on_zero_sums {label : Type}
    (nb : notebook) (w : world label) (cm : loc) (rows : list (list Z))
    (classes : list label) (title : string) (cmap : colormap) :
  (cm < length (heap w))%nat ->
  deref (heap w) cm = IntArray rows ->
  let w' := fst (run_plot nb w cm classes true title cmap) in
  (Forall (fun r => 0 < np_sum_int r) rows ->
   Forall (fun r => of_int64 (np_sum_int r) <> of_int64 0) rows
   /\ new_warnings w w' = [])
  /\ (forall r, In r rows -> r <> [] -> Forall (fun x => x = 0) r ->
      of_int64 (np_sum_int r) = of_int64 0
      /\ In InvalidValue (new_warnings w w')).
Proof.
  intros Hlive Ha.
  rewrite (run_plot_outcome nb w cm classes true title cmap Hlive).
  cbv zeta. rewrite new_warnings_outcome. rewrite Ha.
  unfold true_divide_warnings. cbn [astype_float sum_axis1_column floats].
  rewrite divide_rows_flags_int. split.
  - intros Hpos.
    assert (Hnz : Forall (fun r => np_sum_int r <> 0) rows).
    { apply (Forall_impl _ (P := fun r => 0 < np_sum_int r)); [|exact Hpos].
      intros r Hr. lia. }
    split.
    + apply (Forall_impl _ (P := fun r => np_sum_int r <> 0)); [|exact Hnz].
      intros r Hr Heq.
      destruct (of_int64_nonzero (np_sum_int r) Hr) as [q [Hq Hq0]].
      rewrite Hq in Heq. change (of_int64 0) with (Fin 0) in Heq.
      apply (f_equal (fun x => match x with Fin a => Qeq_bool a 0 | _ => false
                               end)) in Heq.
      cbv beta iota in Heq. rewrite Hq0 in Heq. discriminate Heq.
    + pose proof (flags_none_when_sums_nonzero rows Hnz) as Hnone.
      rewrite !(existsb_none _ _ eq_refl Hnone). reflexivity.
  - intros r Hin Hne Hzero.
    pose proof (np_sum_int_zeros r Hzero) as Hsum.
    split; [rewrite Hsum; reflexivity|].
    apply in_or_app. right.
    match goal with
    | |- In _ (if ?b then _ else _) =>
        assert (Hex : b = true); [|rewrite Hex; left; reflexivity]
    end.
    apply existsb_exists. exists (Some InvalidValue). split; [|reflexivity].
    apply in_concat.
    exists (map (fun x => fdiv_flag (of_int64 x) (of_int64 (np_sum_int r))) r).
    split.
    + apply in_map_iff. exists r. split; [reflexivity | exact Hin].
    + destruct r as [|x r]; [congruence|].
      left. inversion Hzero as [|? ? Hx _]; subst. rewrite Hsum. reflexivity.
Qed.

Lemma normalization_divides_by_zero_only_on_zero_sums_witness :
  (Forall (fun r => of_int64 (np_sum_int r) <> of_int64 0) [[1; 3]; [2; 2]]
   /\ new_warnings example_world
        (fst (run_plot SklearnNotebook example_world 0%nat [0; 1] true
                       "Confusion matrix" "Blues")) = [])
  /\ (of_int64 (np_sum_int [0; 0]) = of_int64 0
      /\ In InvalidValue
           (new_warnings zero_row_world
              (fst (run_plot SklearnNotebook zero_row_world 0%nat [0; 1] true
                             "Confusion matrix" "Blues")))).
Proof.
  split.
  - apply (proj1 (normalization_divides_by_zero_only_on_zero_sums
                    SklearnNotebook example_world 0%nat [[1; 3]; [2; 2]]
                    [0; 1] "Confusion matrix" "Blues"
                    (Nat.lt_0_succ 0) eq_refl)).
    repeat constructor.
  - apply (proj2 (normalization_divides_by_zero_only_on_zero_sums
                    SklearnNotebook zero_row_world 0%nat [[1; 3]; [0; 0]]
                    [0; 1] "Confusion matrix" "Blues"
                    (Nat.lt_0_succ 0) eq_refl) [0; 0]).
    + right. left. reflexivity.
    + discriminate.
    + repeat constructor.
Defined.

(** ** Failures *)

(** C6.  Neither helper validates its input or raises an exception of its
    own: whenever [model_accuracy] or [plot_confusion_matrix] fails, the
    exception is one raised by the library, never a custom one. *)
Theorem failures_come_from_the_library {label : Type} (nb : notebook)
    (w : world label) (cm : loc) (classes : list label) (normalize : bool)
    (title : string) (cmap : colormap) (pred target : list Z) (e : exn) :
  (cm < length (heap w))%nat ->
  Sklearn.model_accuracy pred target = Raise e
  \/ snd (run_plot nb w cm classes normalize title cmap) = Raise e ->
  is_custom e = false /\ exists f, e = LibraryError f.
Proof.
  intros Hlive [Hacc|Hplot].
  - unfold Sklearn.model_accuracy in Hacc.
    destruct (np_equal pred target) as [comparison|e'] eqn:Heq;
      [discriminate|].
    injection Hacc as <-. unfold np_equal in Heq.
    destruct (length pred =? length target)%nat; [discriminate|].
    destruct pred as [|x [|x' pred]]; destruct target as [|y [|y' target]];
      try discriminate; injection Heq as <-;
      (split; [reflexivity | eexists; reflexivity]).
  - rewrite (run_plot_outcome nb w cm classes normalize title cmap Hlive)
      in Hplot.
    unfold outcome in Hplot.
    destruct (np_max (annotated (deref (heap w) cm) normalize))
      as [m|e'] eqn:Hmax; cbn [snd] in Hplot; [discriminate|].
    injection Hplot as <-.
    destruct (annotated (deref (heap w) cm) normalize) as [rows|rows];
      cbn [np_max] in Hmax;
      destruct (concat rows); try discriminate; injection Hmax as <-;
      (split; [reflexivity | eexists; reflexivity]).
Qed.

Lemma failures_come_from_the_library_witness :
  (is_custom (LibraryError ShapeMismatch) = false
   /\ exists f, LibraryError ShapeMismatch = LibraryError f)
  /\ (is_custom (LibraryError EmptyReduction) = false
      /\ exists f, LibraryError EmptyReduction = LibraryError f).
Proof.
  split.
  - apply (failures_come_from_the_library SklearnNotebook example_world
             0%nat [0; 1] false "Confusion matrix" "Blues"
             [1; 2; 1] [1; 2] (LibraryError ShapeMismatch)).
    + cbn. lia.
    + left. reflexivity.
  - apply (failures_come_from_the_library KerasNotebook empty_world
             0%nat [0; 1] false "Confusion matrix" "Blues"
             [] [] (LibraryError EmptyReduction)).
    + cbn. lia.
    + right. reflexivity.
Defined.

(** * Further properties of [model_accuracy] *)

Lemma round2_double (x : Q) :
  round2 (double x) =
  Fin (Qred (inject_Z (rint (binary64 (Qred (binary64 x) * 100))) / 100)).
Proof. reflexivity. Qed.

Lemma binary64_one : (binary64 1 == 1)%Q.
Proof. vm_compute. reflexivity. Qed.

Lemma binary64_hundred : (binary64 100 == 100)%Q.
Proof. vm_compute. reflexivity. Qed.

(** The float64 nearest to a fraction between 0 and 1 lies between 0 and 1,
    and so does what the rounding makes of it. *)
Lemma binary64_unit_interval (x : Q) :
  (0 <= x)%Q -> (x <= 1)%Q ->
  (0 <= Qred (binary64 x))%Q /\ (Qred (binary64 x) <= 1)%Q.
Proof.
  intros H0 H1. rewrite Qred_correct. split.
  - apply binary64_nonneg, H0.
  - pose proof (binary64_mono x 1 H0 H1) as H.
    pose proof binary64_one as E. lra.
Qed.

Lemma round2_unit_interval (x : Q) :
  (0 <= x)%Q -> (x <= 1)%Q ->
  exists r : Q, round2 (double x) = Fin r /\ (0 <= r)%Q /\ (r <= 1)%Q.
Proof.
  intros H0 H1. rewrite round2_double. eexists. split; [reflexivity|].
  destruct (binary64_unit_interval x H0 H1) as [Hy0 Hy1].
  set (y := Qred (binary64 x)) in *.
  assert (Hp0 : (0 <= binary64 (y * 100))%Q) by (apply binary64_nonneg; lra).
  assert (Hp1 : (binary64 (y * 100) <= 100)%Q).
  { pose proof (binary64_mono (y * 100) 100 ltac:(lra) ltac:(lra)) as H.
    pose proof binary64_hundred as E. lra. }
  destruct (rint_between (binary64 (y * 100)) 0 100) as [Hlo Hhi].
  { change (inject_Z 0) with 0%Q. exact Hp0. }
  { change (inject_Z 100) with 100%Q. exact Hp1. }
  rewrite Qred_correct.
  rewrite Zle_Qle in Hlo, Hhi.
  change (inject_Z 0) with 0%Q in Hlo. change (inject_Z 100) with 100%Q in Hhi.
  unfold Qdiv. change (/ 100)%Q with (1 # 100)%Q. split; lra.
Qed.

(** X1.  On arrays of equal length with at least one element the accuracy lies
    between 0 and 1. *)
Theorem accuracy_in_unit_interval (pred target : list Z) :
  length pred = length target ->
  target <> [] ->
  exists r : Q,
    Sklearn.model_accuracy pred target = Value (Fin r)
    /\ (0 <= r)%Q /\ (r <= 1)%Q.
Proof.
  intros Hlen Hne.
  assert (Hn : 0 < Z.of_nat (length target)).
  { destruct target; [congruence | cbn [length]; lia]. }
  rewrite (model_accuracy_equal_lengths pred target Hlen).
  rewrite (fdiv_by_positive _ _ Hn).
  pose proof (matching_positions_bounds pred target) as Hc.
  destruct (Qdiv_unit_interval _ _ Hc Hn) as [H0 H1].
  destruct (round2_unit_interval _ H0 H1) as [r [Hr Hunit]].
  exists r. rewrite Hr. split; [reflexivity | exact Hunit].
Qed.

Lemma accuracy_in_unit_interval_witness :
  exists r : Q,
    Sklearn.model_accuracy [4; 9; 7] [4; 9; 1] = Value (Fin r)
    /\ (0 <= r)%Q /\ (r <= 1)%Q.
Proof.
  apply (accuracy_in_unit_interval [4; 9; 7] [4; 9; 1]).
  - reflexivity.
  - discriminate.
Defined.

(** A fraction above 0.995 is rounded to 1.0: the float64 nearest to it is
    at least the one nearest to 0.995, a hundred times which is rounded to
    99.5 as a float64, and to 100 as an integer. *)
Lemma round2_near_one (x : Q) :
  ((199 # 200) < x)%Q -> (x <= 1)%Q -> round2 (double x) = Fin 1.
Proof.
  intros Hhigh H1. rewrite round2_double.
  destruct (binary64_unit_interval x ltac:(lra) H1) as [_ Hy1].
  assert (Hy0 : ((8962163258467287 # 9007199254740992) <= Qred (binary64 x))%Q).
  { rewrite Qred_correct.
    assert (E : (binary64 (199 # 200)
                 == 8962163258467287 # 9007199254740992)%Q)
      by (vm_compute; reflexivity).
    pose proof (binary64_mono (199 # 200) x ltac:(lra) ltac:(lra)) as H.
    lra. }
  set (y := Qred (binary64 x)) in *.
  assert (Hp0 : ((199 # 2) <= binary64 (y * 100))%Q).
  { assert (E : (binary64 ((8962163258467287 # 9007199254740992) * 100)
                 == 199 # 2)%Q)
      by (vm_compute; reflexivity).
    pose proof (binary64_mono
                  ((8962163258467287 # 9007199254740992) * 100) (y * 100)
                  ltac:(lra) ltac:(lra)) as H.
    lra. }
  assert (Hp1 : (binary64 (y * 100) <= 100)%Q).
  { pose proof (binary64_mono (y * 100) 100 ltac:(lra) ltac:(lra)) as H.
    pose proof binary64_hundred as E. lra. }
  assert (Hk : rint (binary64 (y * 100)) = 100).
  { apply Z.le_antisymm.
    - apply (rint_between (binary64 (y * 100)) 0 100).
      + change (inject_Z 0) with 0%Q. lra.
      + change (inject_Z 100) with 100%Q. exact Hp1.
    - change 100 with (rint (199 # 2)) at 1. apply rint_mono, Hp0. }
  rewrite Hk. reflexivity.
Qed.

(** X2.  The rounding hides a small share of errors: on arrays of equal length
    the function returns exactly 1.0 whenever fewer than one prediction in
    200 is wrong, so on identical arrays and also on long arrays that
    differ. *)
Theorem accuracy_one_below_half_percent_errors (pred target : list Z) :
  length pred = length target ->
  200 * (Z.of_nat (length target) - matching_positions pred target)
    < Z.of_nat (length target) ->
  Sklearn.model_accuracy pred target = Value (Fin 1).
Proof.
  intros Hlen Hfew.
  pose proof (matching_positions_bounds pred target) as Hc.
  set (c := matching_positions pred target) in *.
  set (n := Z.of_nat (length target)) in *.
  assert (Hn : 0 < n) by lia.
  rewrite (model_accuracy_equal_lengths pred target Hlen).
  fold c n. rewrite (fdiv_by_positive _ _ Hn).
  destruct (Qdiv_unit_interval c n Hc Hn) as [_ H1].
  assert (Hhigh : ((199 # 200) < inject_Z c / inject_Z n)%Q).
  { apply Qlt_shift_div_l.
    - change 0%Q with (inject_Z 0). rewrite <- Zlt_Qlt. exact Hn.
    - assert (H : 199 * n < 200 * c) by lia.
      rewrite Zlt_Qlt, !inject_Z_mult in H.
      change (inject_Z 199) with 199%Q in H.
      change (inject_Z 200) with 200%Q in H. lra. }
  rewrite (round2_near_one _ Hhigh H1). reflexivity.
Qed.

Lemma accuracy_one_below_half_percent_errors_witness :
  Sklearn.model_accuracy (1 :: repeat 0 200) (repeat 0 201) = Value (Fin 1).
Proof.
  apply (accuracy_one_below_half_percent_errors
           (1 :: repeat 0 200) (repeat 0 201)).
  - reflexivity.
  - vm_compute. reflexivity.
Defined.

Lemma eq_elementwise_sym (a b : list Z) :
  eq_elementwise a b = eq_elementwise b a.
Proof.
  revert b. induction a as [|x a IH]; intros [|y b]; try reflexivity.
  cbn [eq_elementwise]. rewrite IH, Z.eqb_sym. reflexivity.
Qed.

(** X3.  On arrays of equal length the two arguments can be exchanged. *)
Theorem accuracy_symmetric (pred target : list Z) :
  length pred = length target ->
  Sklearn.model_accuracy pred target = Sklearn.model_accuracy target pred.
Proof.
  intros Hlen. unfold Sklearn.model_accuracy, np_equal.
  rewrite Hlen, Nat.eqb_refl, (eq_elementwise_sym target pred), <- Hlen.
  reflexivity.
Qed.

Lemma accuracy_symmetric_witness :
  Sklearn.model_accuracy [4; 9; 7] [4; 9; 1] =
  Sklearn.model_accuracy [4; 9; 1] [4; 9; 7].
Proof.
  apply (accuracy_symmetric [4; 9; 7] [4; 9; 1]). reflexivity.
Defined.

Lemma sum_bool_occurrences (y : Z) (l : list Z) :
  sum_bool (map (fun x => x =? y) l) = occurrences y l.
Proof.
  unfold occurrences. induction l as [|x l IH]; [reflexivity|].
  cbn [map sum_bool count_occ]. rewrite IH.
  destruct (Z.eqb_spec x y) as [E|E]; destruct (Z.eq_dec x y) as [E'|E'];
    try contradiction; lia.
Qed.

(** A count a hundred times which float64 holds exactly is not changed by
    the rounding. *)
Lemma round2_integer (c : Z) :
  0 <= c -> c * 100 <= 2 ^ 53 ->
  round2 (fdiv (of_int c) (of_int 1)) = Fin (inject_Z c).
Proof.
  intros H0 Hc. rewrite fdiv_by_positive by lia. rewrite round2_double.
  assert (H1 : Qred (binary64 (inject_Z c / inject_Z 1)) = inject_Z c).
  { apply Qred_integer.
    rewrite (binary64_comp (inject_Z c / inject_Z 1) (inject_Z c))
      by (change (inject_Z 1) with 1%Q; field).
    apply binary64_integer. lia. }
  rewrite H1.
  assert (H2 : rint (binary64 (inject_Z c * 100)) = c * 100).
  { apply rint_integer.
    rewrite (binary64_comp (inject_Z c * 100) (inject_Z (c * 100)))
      by (rewrite inject_Z_mult; reflexivity).
    apply binary64_integer. lia. }
  rewrite H2. f_equal. apply Qred_integer.
  rewrite inject_Z_mult. change (inject_Z 100) with 100%Q. field.
Qed.

Lemma occurrences_bounds (y : Z) (l : list Z) :
  0 <= occurrences y l <= Z.of_nat (length l).
Proof.
  unfold occurrences. pose proof (count_occ_bound Z.eq_dec y l). lia.
Qed.

(** X4.  Against a target of length one the result is no fraction: it is the
    number of entries of [pred] equal to the target, which exceeds 1 as soon
    as two of them are.  (For fewer than 2^46 predictions: a hundred times
    the count is then a float64, and the arithmetic of [round] is exact.) *)
Theorem accuracy_against_single_target (pred : list Z) (y : Z) :
  Z.of_nat (length pred) < 2 ^ 46 ->
  Sklearn.model_accuracy pred [y] = Value (Fin (inject_Z (occurrences y pred))).
Proof.
  intros Hsize.
  pose proof (occurrences_bounds y pred) as Hocc.
  unfold Sklearn.model_accuracy, np_equal.
  assert (Hsum : forall comparison,
            comparison = map (fun x => x =? y) pred ->
            Value (round2 (fdiv (of_int (sum_bool comparison))
                                (of_int (Z.of_nat (length [y]))))) =
            Value (Fin (inject_Z (occurrences y pred)))).
  { intros comparison ->. rewrite sum_bool_occurrences.
    change (Z.of_nat (length [y])) with 1. rewrite round2_integer by lia.
    reflexivity. }
  clear Hsize Hocc.
  destruct pred as [|x [|x' pred]]; cbn [length Nat.eqb];
    apply Hsum; reflexivity.
Qed.

Lemma accuracy_against_single_target_witness :
  Sklearn.model_accuracy [4; 9; 4] [4]
  = Value (Fin (inject_Z (occurrences 4 [4; 9; 4]))).
Proof.
  apply (accuracy_against_single_target [4; 9; 4] 4).
  vm_compute. reflexivity.
Defined.

(** X5.  The call returns exactly when the two shapes broadcast: equal lengths,
    or one of the two of length one. *)
Theorem accuracy_returns_iff_broadcastable (pred target : list Z) :
  (exists x, Sklearn.model_accuracy pred target = Value x)
  <-> (length pred = length target
       \/ length pred = 1%nat \/ length target = 1%nat).
Proof.
  unfold Sklearn.model_accuracy, np_equal.
  destruct (Nat.eqb_spec (length pred) (length target)) as [E|E].
  - split; [intros _; left; exact E | intros _; eexists; reflexivity].
  - destruct pred as [|x [|x' pred]]; destruct target as [|y [|y' target]];
      cbn [length] in *;
      (split;
       [ intros [v Hv]; (discriminate Hv || (right; (left + right); reflexivity))
       | intros [H|[H|H]]; (congruence || (eexists; reflexivity)) ]).
Qed.

Lemma sum_bool_nonneg (l : list bool) : 0 <= sum_bool l.
Proof.
  induction l as [|[|] l IH]; cbn [sum_bool]; lia.
Qed.

(** X6.  Whenever the call returns, the result is NaN if [target] is empty and a
    finite number that is not negative otherwise; it is never an infinity. *)
Theorem accuracy_nan_iff_empty_target (pred target : list Z) (x : float64) :
  Sklearn.model_accuracy pred target = Value x ->
  (target = [] -> x = NaN)
  /\ (target <> [] -> exists r : Q, x = Fin r /\ (0 <= r)%Q).
Proof.
  unfold Sklearn.model_accuracy. cbv zeta.
  destruct (np_equal pred target) as [comparison|e] eqn:Hcmp; [|discriminate].
  intros Hx.
  apply (f_equal (fun r => match r with Value v => v | Raise _ => x end))
    in Hx.
  cbv beta iota in Hx. subst x. split.
  - intros ->. unfold np_equal in Hcmp.
    destruct pred as [|p [|p' pred]]; cbn in Hcmp; try discriminate;
      injection Hcmp as <-; reflexivity.
  - intros Hne.
    assert (Hn : 0 < Z.of_nat (length target)).
    { destruct target; [congruence | cbn [length]; lia]. }
    rewrite (fdiv_by_positive _ _ Hn), round2_double.
    eexists. split; [reflexivity|].
    pose proof (sum_bool_nonneg comparison) as Hc.
    set (c := sum_bool comparison) in *.
    set (n := Z.of_nat (length target)) in *.
    assert (Hq : (0 <= inject_Z c / inject_Z n)%Q).
    { apply Qle_shift_div_l.
      - change 0%Q with (inject_Z 0). rewrite <- Zlt_Qlt. exact Hn.
      - rewrite Qmult_0_l. change 0%Q with (inject_Z 0).
        rewrite <- Zle_Qle. exact Hc. }
    set (q := (inject_Z c / inject_Z n)%Q) in *.
    pose proof (Qred_correct (binary64 q)) as Hred.
    pose proof (binary64_nonneg q Hq) as Hy.
    set (y := Qred (binary64 q)) in *.
    assert (Hr : 0 <= rint (binary64 (y * 100))).
    { apply rint_nonneg, binary64_nonneg. lra. }
    rewrite Zle_Qle in Hr. change (inject_Z 0) with 0%Q in Hr.
    rewrite Qred_correct. unfold Qdiv. change (/ 100)%Q with (1 # 100)%Q.
    lra.
Qed.

Lemma accuracy_nan_iff_empty_target_witness :
  ([4; 9; 1] = [] -> Fin (67 # 100) = NaN)
  /\ ([4; 9; 1] <> [] -> exists r : Q, Fin (67 # 100) = Fin r /\ (0 <= r)%Q).
Proof.
  apply (accuracy_nan_iff_empty_target [4; 9; 7] [4; 9; 1] (Fin (67 # 100))).
  reflexivity.
Defined.

(** * Further properties of [plot_confusion_matrix] *)

Lemma concat_all_nil {A B : Type} (g : list A -> list B)
    (rows : list (list A)) :
  g [] = [] ->
  Forall (fun r => r = []) rows -> concat (map g rows) = [].
Proof.
  intros Hg. induction 1 as [|r rows -> _ IH]; [reflexivity|].
  cbn [map concat]. rewrite Hg, IH. reflexivity.
Qed.

Lemma rows_all_nil {A : Type} (rows : list (list A)) :
  Forall (fun r => length r = width rows) rows ->
  length rows = 0%nat \/ width rows = 0%nat ->
  Forall (fun r => r = []) rows.
Proof.
  intros Hrect [H0|H1].
  - destruct rows; [constructor | discriminate].
  - rewrite H1 in Hrect.
    apply (Forall_impl _ (P := fun r => length r = 0%nat)); [|exact Hrect].
    intros r Hr. destruct r; [reflexivity | discriminate].
Qed.

Lemma np_max_without_entries (a : ndarray) (normalize : bool) :
  rectangular a ->
  shape0 a = 0%nat \/ shape1 a = 0%nat ->
  np_max (annotated a normalize) = Raise (LibraryError EmptyReduction).
Proof.
  intros Hrect Hshape.
  destruct a as [rows|rows]; cbn [rectangular shape0 shape1] in *;
    pose proof (rows_all_nil rows Hrect Hshape) as Hnil;
    destruct normalize; cbn [annotated row_normalized np_max].
  - rewrite (concat_all_nil
               (fun r => map (fun x => fdiv (of_int64 x) (of_int64 (np_sum_int r))) r)
               rows eq_refl Hnil).
    reflexivity.
  - rewrite <- (map_id rows).
    rewrite (concat_all_nil (fun r => r) rows eq_refl Hnil). reflexivity.
  - rewrite (concat_all_nil
               (fun r => map (fun x => fdiv x (np_sum_float r)) r)
               rows eq_refl Hnil).
    reflexivity.
  - rewrite <- (map_id rows).
    rewrite (concat_all_nil (fun r => r) rows eq_refl Hnil). reflexivity.
Qed.

(** X7.  On a matrix without entries (no rows, or no columns) the helper fails
    in [cm.max()] with numpy's exception, after the heat map, the title, the
    colour bar and the ticks: no cell is annotated, the axes are not named
    and [plt.show()] is not reached. *)
Theorem plot_of_empty_matrix_stops_after_ticks {label : Type}
    (nb : notebook) (w : world label) (cm : loc) (classes : list label)
    (normalize : bool) (title : string) (cmap : colormap) :
  let a := deref (heap w) cm in
  (cm < length (heap w))%nat ->
  rectangular a ->
  shape0 a = 0%nat \/ shape1 a = 0%nat ->
  snd (run_plot nb w cm classes normalize title cmap) =
    Raise (LibraryError EmptyReduction)
  /\ new_calls w (fst (run_plot nb w cm classes normalize title cmap)) =
     [Figure 8 8; Imshow a "nearest" cmap; Title title; Colorbar;
      Xticks (seq 0 (length classes)) classes 45;
      Yticks (seq 0 (length classes)) classes].
Proof.
  intros a Hlive Hrect Hshape.
  rewrite (run_plot_outcome nb w cm classes normalize title cmap Hlive).
  rewrite new_calls_outcome. unfold outcome. fold a.
  rewrite (np_max_without_entries a normalize Hrect Hshape).
  split; reflexivity.
Qed.

Lemma plot_of_empty_matrix_stops_after_ticks_witness :
  snd (run_plot SklearnNotebook empty_world 0%nat [0; 1] true
                "Confusion matrix" "Blues") =
    Raise (LibraryError EmptyReduction)
  /\ new_calls empty_world
       (fst (run_plot SklearnNotebook empty_world 0%nat [0; 1] true
                      "Confusion matrix" "Blues")) =
     [Figure 8 8; Imshow (deref (heap empty_world) 0%nat) "nearest" "Blues";
      Title "Confusion matrix"; Colorbar;
      Xticks (seq 0 (length [0; 1])) [0; 1] 45;
      Yticks (seq 0 (length [0; 1])) [0; 1]].
Proof.
  apply (plot_of_empty_matrix_stops_after_ticks SklearnNotebook empty_world
           0%nat [0; 1] true "Confusion matrix" "Blues").
  - cbn. lia.
  - cbn. constructor.
  - left. reflexivity.
Defined.

Lemma text_cells_of_annotations {label : Type} (a : ndarray)
    (thresh : float64) :
  map (@text_cell label) (annotations a thresh) =
  product (arange (shape0 a)) (arange (shape1 a)).
Proof.
  unfold annotations. rewrite map_map.
  rewrite <- (map_id (product _ _)) at 2.
  apply map_ext. intros [i j]. reflexivity.
Qed.

(** X8.  On a matrix with at least one entry the helper succeeds; it annotates
    the cells in row-major order, (0,0), (0,1), ..., one text per cell and
    shape0 * shape1 texts in all, and its last call is [plt.show()]. *)
Theorem plot_annotates_in_row_major_order {label : Type}
    (nb : notebook) (w : world label) (cm : loc) (classes : list label)
    (normalize : bool) (title : string) (cmap : colormap) :
  let a := deref (heap w) cm in
  let added :=
    new_calls w (fst (run_plot nb w cm classes normalize title cmap)) in
  (cm < length (heap w))%nat ->
  (0 < shape0 a)%nat -> (0 < shape1 a)%nat ->
  snd (run_plot nb w cm classes normalize title cmap) = Value tt
  /\ map text_cell (filter is_text added) =
     list_prod (seq 0 (shape0 a)) (seq 0 (shape1 a))
  /\ length (filter is_text added) = (shape0 a * shape1 a)%nat
  /\ last added Colorbar = Show.
Proof.
  intros a added Hlive H0 H1. unfold added.
  rewrite (run_plot_outcome nb w cm classes normalize title cmap Hlive).
  rewrite new_calls_outcome. unfold outcome. fold a.
  destruct (np_max_defined (annotated a normalize)) as [m Hm].
  { rewrite shape0_annotated. exact H0. }
  { rewrite shape1_annotated. exact H1. }
  rewrite Hm. cbn [snd].
  assert (Htexts :
    filter is_text
      (preamble a classes title cmap
       ++ annotations (annotated a normalize) (fdiv (to_float m) (Fin 2))
       ++ epilogue) =
    annotations (annotated a normalize) (fdiv (to_float m) (Fin 2))).
  { rewrite !filter_app, filter_is_text_annotations.
    cbn [preamble epilogue filter is_text app]. apply app_nil_r. }
  rewrite Htexts, text_cells_of_annotations.
  rewrite shape0_annotated, shape1_annotated.
  split; [reflexivity|]. split; [reflexivity|]. split.
  - rewrite <- (length_map text_cell), text_cells_of_annotations.
    rewrite shape0_annotated, shape1_annotated.
    unfold product, arange. rewrite length_prod, !length_seq. reflexivity.
  - rewrite app_assoc. unfold epilogue.
    change [TightLayout; Ylabel "True label"; Xlabel "Predicted label"; Show]
      with ([TightLayout; Ylabel "True label"; Xlabel "Predicted label"]
            ++ [@Show label]).
    rewrite app_assoc. apply last_last.
Qed.

Lemma plot_annotates_in_row_major_order_witness :
  let added :=
    new_calls example_world
      (fst (run_plot KerasNotebook example_world 0%nat [0; 1] false
                     "Confusion matrix" "Blues")) in
  snd (run_plot KerasNotebook example_world 0%nat [0; 1] false
                "Confusion matrix" "Blues") = Value tt
  /\ map text_cell (filter is_text added) =
     list_prod (seq 0 (shape0 (deref (heap example_world) 0%nat)))
               (seq 0 (shape1 (deref (heap example_world) 0%nat)))
  /\ length (filter is_text added) =
     (shape0 (deref (heap example_world) 0%nat)
      * shape1 (deref (heap example_world) 0%nat))%nat
  /\ last added Colorbar = Show.
Proof.
  apply (plot_annotates_in_row_major_order KerasNotebook example_world
           0%nat [0; 1] false "Confusion matrix" "Blues").
  - cbn. lia.
  - cbn. lia.
  - cbn. lia.
Defined.

(** In a matrix of rows of counts every normalized entry is a float64
    between 0 and 1. *)
Lemma normalized_entries_in_unit_interval (rows : list (list Z)) :
  Forall counts_row rows ->
  Forall (fun x => exists q : Q, x = Fin q /\ (0 <= q)%Q /\ (q <= 1)%Q)
         (entries (row_normalized (IntArray rows))).
Proof.
  intros Hrows. unfold entries. cbn [row_normalized floats].
  induction Hrows as [|r rows Hr _ IH]; [constructor|].
  cbn [map concat]. apply Forall_app. split; [|exact IH].
  apply Forall_forall. intros v Hv. apply in_map_iff in Hv.
  destruct Hv as [x [<- Hx]].
  destruct (quotient_of_counts r x Hr Hx) as [Hq [H0 H1]].
  rewrite Hq. eexists. split; [reflexivity|].
  apply binary64_unit_interval; assumption.
Qed.

Lemma no_nan_in_unit_interval (l : list float64) :
  Forall (fun x => exists q : Q, x = Fin q /\ (0 <= q)%Q /\ (q <= 1)%Q) l ->
  existsb is_nan l = false.
Proof.
  induction 1 as [|x l [q [-> _]] _ IH]; [reflexivity | exact IH].
Qed.

(** A count that is more than half of a total below 2^53 has a float64
    quotient above 1/2: the quotient is at least 2^52 / (2^53 - 1), which is
    nearer to the float64 that follows 1/2 than to 1/2. *)
Lemma majority_quotient (x s : Z) :
  0 < s < 2 ^ 53 -> s < 2 * x ->
  ((1 # 2) < Qred (binary64 (inject_Z x / inject_Z s)))%Q.
Proof.
  intros Hs Hmaj.
  assert (HS : (0 < inject_Z s)%Q).
  { change 0%Q with (inject_Z 0). rewrite <- Zlt_Qlt. lia. }
  assert (Hc : ((4503599627370496 # 9007199254740991)
                <= inject_Z x / inject_Z s)%Q).
  { apply Qle_shift_div_l; [exact HS|].
    assert (Hz : 4503599627370496 * s <= 9007199254740991 * x) by lia.
    rewrite Zle_Qle, !inject_Z_mult in Hz.
    change (inject_Z 4503599627370496) with (4503599627370496 # 1)%Q in Hz.
    change (inject_Z 9007199254740991) with (9007199254740991 # 1)%Q in Hz.
    lra. }
  assert (E : (binary64 (4503599627370496 # 9007199254740991)
               == 4503599627370497 # 9007199254740992)%Q)
    by (vm_compute; reflexivity).
  pose proof (binary64_mono (4503599627370496 # 9007199254740991)
                (inject_Z x / inject_Z s) ltac:(lra) Hc) as H.
  rewrite Qred_correct. lra.
Qed.

Lemma binary64_half_one : (binary64 (1 # 2) == 1 # 2)%Q.
Proof. vm_compute. reflexivity. Qed.

(** X10.  With [normalize] set, on a matrix of counts every row of which holds a
    sample (the totals below 2^53, which float64 holds exactly), every cell
    that holds more than half of the samples of its row is annotated in
    white: the maximum of the normalized matrix is at most 1, so the
    threshold is at most 1/2. *)
Theorem normalized_majority_cells_are_white {label : Type}
    (nb : notebook) (w : world label) (cm : loc) (rows : list (list Z))
    (classes : list label) (title : string) (cmap : colormap) (i j : nat) :
  let a := IntArray rows in
  (cm < length (heap w))%nat ->
  deref (heap w) cm = a ->
  rectangular a ->
  Forall counts_row rows ->
  (i < shape0 a)%nat -> (j < shape1 a)%nat ->
  total (nth i rows []) < 2 * nth j (nth i rows []) 0 ->
  filter (is_text_at j i)
    (new_calls w (fst (run_plot nb w cm classes true title cmap))) =
  [Text j i (normalized_entry a i j) "center" "white"].
Proof.
  intros a Hlive Ha Hrect Hcounts Hi Hj Hmaj.
  destruct (run_plot_texts_at nb w cm classes true title cmap i j Hlive)
    as [m [Hm Htexts]]; try (rewrite Ha; assumption).
  rewrite Ha in Hm, Htexts. rewrite Htexts. unfold annotation.
  cbn [fst snd]. rewrite (item_annotated a true i j Hrect Hi Hj).
  f_equal. f_equal. unfold text_color.
  cbn [annotated a row_normalized] in Hm.
  pose proof (np_max_float_is_maximum _ _ Hm) as Hmax.
  pose proof (normalized_entries_in_unit_interval rows Hcounts) as Hunit.
  unfold is_maximum in Hmax. cbn [row_normalized] in Hunit.
  rewrite (no_nan_in_unit_interval _ Hunit) in Hmax.
  destruct Hmax as [Hin _].
  rewrite Forall_forall in Hunit.
  destruct (Hunit _ Hin) as [qm [Hqm [Hqm0 Hle]]].
  rewrite Hqm, fdiv_fin_two.
  cbn [rectangular shape0 shape1 a] in Hrect, Hi, Hj.
  pose proof (row_length rows i Hrect Hi) as Hlen.
  assert (Hrow : counts_row (nth i rows [])).
  { rewrite Forall_forall in Hcounts. apply Hcounts, nth_In, Hi. }
  unfold normalized_entry, a. cbn [item row_sum to_float].
  destruct (quotient_of_counts (nth i rows []) (nth j (nth i rows []) 0) Hrow)
    as [Hq _].
  { apply nth_In. lia. }
  rewrite Hq. unfold double. cbn [fgt].
  pose proof (majority_quotient _ _ (proj2 Hrow) Hmaj) as Hbig.
  assert (Hthresh : (Qred (binary64 (qm / 2)) <= 1 # 2)%Q).
  { rewrite Qred_correct.
    assert (Hh : (qm / 2 <= 1 # 2)%Q).
    { unfold Qdiv. change (/ 2)%Q with (1 # 2)%Q. lra. }
    assert (Hh0 : (0 <= qm / 2)%Q).
    { unfold Qdiv. change (/ 2)%Q with (1 # 2)%Q. lra. }
    pose proof (binary64_mono (qm / 2) (1 # 2) Hh0 Hh) as H.
    pose proof binary64_half_one as E. lra. }
  assert (Hgt : negb (Qle_bool
                        (Qred (binary64 (inject_Z (nth j (nth i rows []) 0)
                                         / inject_Z (total (nth i rows [])))))
                        (Qred (binary64 (qm / 2)))) = true).
  { apply Qgt_bool_true. lra. }
  rewrite Hgt. reflexivity.
Qed.

Lemma normalized_majority_cells_are_white_witness :
  filter (is_text_at 1 0)
    (new_calls example_world
       (fst (run_plot SklearnNotebook example_world 0%nat [0; 1] true
                      "Confusion matrix" "Blues"))) =
  [Text 1 0 (normalized_entry (IntArray [[1; 3]; [2; 2]]) 0 1)
        "center" "white"].
Proof.
  apply (normalized_majority_cells_are_white SklearnNotebook example_world
           0%nat [[1; 3]; [2; 2]] [0; 1] "Confusion matrix" "Blues"
           0%nat 1%nat).
  - cbn. lia.
  - reflexivity.
  - cbn. repeat constructor.
  - repeat constructor; cbn; lia.
  - cbn. lia.
  - cbn. lia.
  - cbn. lia.
Defined.

(** X11.  Without normalization, on counts that float64 holds exactly
    (magnitudes up to 2^53), the colour rule is one on integers: the
    annotation of a cell is white exactly when twice its count exceeds the
    largest count of the matrix. *)
Theorem raw_cell_white_iff_twice_above_maximum {label : Type}
    (nb : notebook) (w : world label) (cm : loc) (rows : list (list Z))
    (classes : list label) (title : string) (cmap : colormap) (i j : nat) :
  let a := IntArray rows in
  let count := nth j (nth i rows []) 0 in
  (cm < length (heap w))%nat ->
  deref (heap w) cm = a ->
  rectangular a ->
  Forall (Forall held_exactly) rows ->
  (i < shape0 a)%nat -> (j < shape1 a)%nat ->
  exists (largest : Z) (color : string),
    In largest (concat rows)
    /\ (forall z, In z (concat rows) -> z <= largest)
    /\ filter (is_text_at j i)
         (new_calls w (fst (run_plot nb w cm classes false title cmap))) =
       [Text j i (I count) "center" color]
    /\ (color = "white"%string <-> largest < 2 * count)
    /\ (color = "black"%string <-> 2 * count <= largest).
Proof.
  intros a count Hlive Ha Hrect Hheld Hi Hj.
  destruct (run_plot_texts_at nb w cm classes false title cmap i j Hlive)
    as [m [Hm Htexts]]; try (rewrite Ha; assumption).
  rewrite Ha in Hm, Htexts. cbn [annotated] in Hm, Htexts.
  unfold a in Hm. cbn [np_max] in Hm.
  assert (Hall : Forall held_exactly (concat rows))
    by (apply Forall_concat; exact Hheld).
  cbn [rectangular shape0 shape1 a] in Hrect, Hi, Hj.
  assert (Hcount : held_exactly count).
  { rewrite Forall_forall in Hall. apply Hall, item_in_concat; [exact Hi|].
    rewrite (row_length rows i Hrect Hi). exact Hj. }
  destruct (concat rows) as [|x l] eqn:Hcat; [discriminate|].
  injection Hm as <-.
  destruct (fold_zmax_spec l x) as [Hin Hge].
  set (largest := fold_left Z.max l x) in *.
  assert (Hlargest : held_exactly largest).
  { rewrite Forall_forall in Hall. apply Hall, Hin. }
  exists largest, (text_color (I count) (fdiv (to_float (I largest)) (Fin 2))).
  split; [exact Hin|]. split; [exact Hge|]. split; [exact Htexts|].
  unfold text_color. cbn [to_float].
  rewrite (of_int64_exact count Hcount), (of_int64_exact largest Hlargest).
  rewrite fdiv_fin_two. unfold double. cbn [fgt].
  assert (Hq : (Qred (binary64 (inject_Z largest / 2)) < inject_Z count)%Q
               <-> largest < 2 * count).
  { rewrite Qred_correct, binary64_half, (binary64_integer largest Hlargest).
    unfold Qdiv. change (/ 2)%Q with (1 # 2)%Q.
    rewrite Zlt_Qlt, inject_Z_mult. change (inject_Z 2) with 2%Q.
    split; intros H; lra. }
  destruct (negb (Qle_bool (inject_Z count)
                           (Qred (binary64 (inject_Z largest / 2)))))
    eqn:E.
  - apply Qgt_bool_true in E. apply Hq in E.
    repeat split; intros H; try reflexivity; try discriminate H; lia.
  - apply Qgt_bool_false in E.
    assert (Hle : 2 * count <= largest).
    { destruct (Z_lt_le_dec largest (2 * count)) as [Hlt|Hle]; [|exact Hle].
      apply Hq in Hlt. lra. }
    repeat split; intros H; try reflexivity; try discriminate H; lia.
Qed.

Lemma raw_cell_white_iff_twice_above_maximum_witness :
  exists (largest : Z) (color : string),
    In largest (concat [[1; 3]; [2; 2]])
    /\ (forall z, In z (concat [[1; 3]; [2; 2]]) -> z <= largest)
    /\ filter (is_text_at 0 1)
         (new_calls example_world
            (fst (run_plot SklearnNotebook example_world 0%nat [0; 1] false
                           "Confusion matrix" "Blues"))) =
       [Text 0 1 (I (nth 0 (nth 1 [[1; 3]; [2; 2]] []) 0)) "center" color]
    /\ (color = "white"%string
        <-> largest < 2 * nth 0 (nth 1 [[1; 3]; [2; 2]] []) 0)
    /\ (color = "black"%string
        <-> 2 * nth 0 (nth 1 [[1; 3]; [2; 2]] []) 0 <= largest).
Proof.
  apply (raw_cell_white_iff_twice_above_maximum SklearnNotebook example_world
           0%nat [[1; 3]; [2; 2]] [0; 1] "Confusion matrix" "Blues"
           1%nat 0%nat).
  - cbn. lia.
  - reflexivity.
  - cbn. repeat constructor.
  - repeat constructor; unfold held_exactly; cbn; lia.
  - cbn. lia.
  - cbn. lia.
Defined.

Lemma heap_of_outcome {label : Type} (w : world label) (cm : loc)
    (classes : list label) (normalize : bool) (title : string)
    (cmap : colormap) :
  heap (fst (outcome w cm classes normalize title cmap)) =
  heap w ++ (if normalize
             then normalization_objects (deref (heap w) cm) else []).
Proof.
  unfold outcome.
  destruct (np_max (annotated (deref (heap w) cm) normalize)); reflexivity.
Qed.

Lemma result_of_outcome {label : Type} (w : world label) (cm : loc)
    (classes : list label) (normalize : bool) (title : string)
    (cmap : colormap) :
  snd (outcome w cm classes normalize title cmap) =
  match np_max (annotated (deref (heap w) cm) normalize) with
  | Value _ => Value tt
  | Raise e => Raise e
  end.
Proof.
  unfold outcome.
  destruct (np_max (annotated (deref (heap w) cm) normalize)); reflexivity.
Qed.

(** X12.  The helper can be called again on the same matrix: the second call
    ends like the first and draws the same figure, call for call. *)
Theorem plot_is_repeatable {label : Type} (nb : notebook)
    (w : world label) (cm : loc) (classes : list label) (normalize : bool)
    (title : string) (cmap : colormap) :
  (cm < length (heap w))%nat ->
  let w1 := fst (run_plot nb w cm classes normalize title cmap) in
  let w2 := fst (run_plot nb w1 cm classes normalize title cmap) in
  snd (run_plot nb w1 cm classes normalize title cmap) =
    snd (run_plot nb w cm classes normalize title cmap)
  /\ new_calls w1 w2 = new_calls w w1.
Proof.
  intros Hlive. cbv zeta.
  rewrite (run_plot_outcome nb w cm classes normalize title cmap Hlive).
  pose proof (heap_of_outcome w cm classes normalize title cmap) as Hheap.
  assert (Hlive1 :
    (cm < length (heap (fst (outcome w cm classes normalize title cmap))))%nat).
  { rewrite Hheap, length_app. lia. }
  assert (Hsame :
    deref (heap (fst (outcome w cm classes normalize title cmap))) cm =
    deref (heap w) cm).
  { rewrite Hheap. apply deref_live, Hlive. }
  rewrite (run_plot_outcome nb _ cm classes normalize title cmap Hlive1).
  rewrite !result_of_outcome, !new_calls_outcome, Hsame.
  split; reflexivity.
Qed.

Lemma plot_is_repeatable_witness :
  let w1 := fst (run_plot SklearnNotebook example_world 0%nat [0; 1] true
                          "Confusion matrix" "Blues") in
  let w2 := fst (run_plot SklearnNotebook w1 0%nat [0; 1] true
                          "Confusion matrix" "Blues") in
  snd (run_plot SklearnNotebook w1 0%nat [0; 1] true
                "Confusion matrix" "Blues") =
    snd (run_plot SklearnNotebook example_world 0%nat [0; 1] true
                  "Confusion matrix" "Blues")
  /\ new_calls w1 w2 = new_calls example_world w1.
Proof.
  apply (plot_is_repeatable SklearnNotebook example_world 0%nat [0; 1] true
           "Confusion matrix" "Blues").
  cbn. lia.
Defined.

Lemma fgt_nan_r (x : float64) : fgt x NaN = false.
Proof. destruct x; reflexivity. Qed.

Lemma zero_row_gives_nan_entry (rows : list (list Z)) (r : list Z) :
  In r rows -> r <> [] -> Forall (fun x => x = 0) r ->
  existsb is_nan (entries (row_normalized (IntArray rows))) = true.
Proof.
  intros Hin Hne Hzero.
  apply existsb_exists. exists NaN. split; [|reflexivity].
  unfold entries. cbn [row_normalized floats]. apply in_concat.
  exists (map (fun x => fdiv (of_int64 x) (of_int64 (np_sum_int r))) r). split.
  - apply (in_map (fun r =>
             map (fun x => fdiv (of_int64 x) (of_int64 (np_sum_int r))) r)).
    exact Hin.
  - rewrite (np_sum_int_zeros r Hzero).
    destruct r as [|x r]; [congruence|].
    inversion Hzero as [|? ? Hx _]; subst. left. reflexivity.
Qed.

(** X13.  With [normalize] set, a single row of zeros (a class without samples)
    spoils the whole figure: the cells of that row are annotated NaN, the
    maximum of the matrix is NaN, and every annotation of every row is
    black. *)
Theorem zero_row_blackens_every_annotation {label : Type}
    (nb : notebook) (w : world label) (cm : loc) (rows : list (list Z))
    (classes : list label) (title : string) (cmap : colormap)
    (empty_class i j : nat) :
  let a := IntArray rows in
  (cm < length (heap w))%nat ->
  deref (heap w) cm = a ->
  rectangular a ->
  (empty_class < shape0 a)%nat ->
  Forall (fun x => x = 0) (nth empty_class rows []) ->
  (i < shape0 a)%nat -> (j < shape1 a)%nat ->
  filter (is_text_at j i)
    (new_calls w (fst (run_plot nb w cm classes true title cmap))) =
  [Text j i (normalized_entry a i j) "center" "black"]
  /\ normalized_entry a empty_class j = F NaN.
Proof.
  intros a Hlive Ha Hrect Hclass Hzero Hi Hj.
  cbn [rectangular shape0 shape1 a] in Hrect, Hclass, Hi, Hj.
  pose proof (row_length rows empty_class Hrect Hclass) as Hlen.
  assert (Hnan : existsb is_nan (entries (row_normalized a)) = true).
  { apply (zero_row_gives_nan_entry rows (nth empty_class rows [])).
    - apply nth_In, Hclass.
    - intros E. rewrite E in Hlen. cbn [length] in Hlen. lia.
    - exact Hzero. }
  split.
  - destruct (run_plot_texts_at nb w cm classes true title cmap i j Hlive)
      as [m [Hm Htexts]]; try (rewrite Ha; assumption).
    rewrite Ha in Hm, Htexts. rewrite Htexts. unfold annotation.
    cbn [fst snd]. rewrite (item_annotated a true i j Hrect Hi Hj).
    cbn [annotated a row_normalized] in Hm.
    pose proof (np_max_float_is_maximum _ _ Hm) as Hmax.
    unfold is_maximum in Hmax. cbn [row_normalized a] in Hnan.
    rewrite Hnan in Hmax. rewrite Hmax.
    unfold text_color. change (fdiv NaN (Fin 2)) with NaN.
    rewrite fgt_nan_r. reflexivity.
  - unfold normalized_entry, a. cbn [item row_sum to_float].
    rewrite (np_sum_int_zeros _ Hzero).
    assert (Hx : nth j (nth empty_class rows []) 0 = 0).
    { rewrite Forall_forall in Hzero. apply Hzero, nth_In. lia. }
    rewrite Hx. reflexivity.
Qed.

Lemma zero_row_blackens_every_annotation_witness :
  filter (is_text_at 1 0)
    (new_calls zero_row_world
       (fst (run_plot SklearnNotebook zero_row_world 0%nat [0; 1] true
                      "Confusion matrix" "Blues"))) =
  [Text 1 0 (normalized_entry (IntArray [[1; 3]; [0; 0]]) 0 1)
        "center" "black"]
  /\ normalized_entry (IntArray [[1; 3]; [0; 0]]) 1 1 = F NaN.
Proof.
  apply (zero_row_blackens_every_annotation SklearnNotebook zero_row_world
           0%nat [[1; 3]; [0; 0]] [0; 1] "Confusion matrix" "Blues"
           1%nat 0%nat 1%nat).
  - cbn. lia.
  - reflexivity.
  - cbn. repeat constructor.
  - cbn. lia.
  - cbn. repeat constructor.
  - cbn. lia.
  - cbn. lia.
Defined.

(** * The grids of digits *)

Lemma chunks_concat {A : Type} (size : nat) (rows : list (list A)) :
  Forall (fun r => length r = size) rows ->
  chunks size (length rows) (concat rows) = rows.
Proof.
  induction 1 as [|r rows Hr _ IH]; [reflexivity|].
  cbn [length concat chunks].
  assert (H1 : firstn size (r ++ concat rows) = r).
  { rewrite <- Hr. clear. induction r as [|x r IH]; [reflexivity|].
    cbn [length app firstn]. rewrite IH. reflexivity. }
  assert (H2 : skipn size (r ++ concat rows) = concat rows).
  { rewrite <- Hr. apply skipn_length_app. }
  rewrite H1, H2, IH. reflexivity.
Qed.

Lemma length_concat_rows {A : Type} (size : nat) (rows : list (list A)) :
  Forall (fun r => length r = size) rows ->
  length (concat rows) = (length rows * size)%nat.
Proof.
  induction 1 as [|r rows Hr _ IH]; [reflexivity|].
  cbn [concat length]. rewrite length_app, IH, Hr. lia.
Qed.

(** Reshaping a well-formed array of flattened images cuts every row into
    its image. *)
Lemma reshape_images_rows {pixel : Type} (side : nat)
    (X : list (list pixel)) :
  (0 < side)%nat ->
  Forall (fun r => length r = (side * side)%nat) X ->
  reshape_images side X = inl (map (chunks side side) X).
Proof.
  intros Hside Hrows. unfold reshape_images.
  assert (Hpos : (side * side <> 0)%nat) by nia.
  rewrite (length_concat_rows _ X Hrows).
  destruct (Nat.eqb_spec (side * side) 0) as [E|_]; [contradiction|].
  rewrite Nat.Div0.mod_mul, Nat.eqb_refl.
  rewrite (Nat.div_mul _ _ Hpos), (chunks_concat _ X Hrows). reflexivity.
Qed.

Lemma nth_chunks {A : Type} (size count : nat) (l : list A) (r : nat) :
  (r < count)%nat ->
  nth r (chunks size count l) [] = firstn size (skipn (r * size) l).
Proof.
  revert l r. induction count as [|count IH]; intros l r Hr; [lia|].
  destruct r as [|r]; cbn [chunks nth]; [reflexivity|].
  rewrite IH by lia. cbn [Nat.mul]. rewrite skipn_skipn.
  f_equal. f_equal. lia.
Qed.

(** Pixel (r, c) of an image is entry [r * side + c] of its flattened row. *)
Lemma pixel_of_chunks {A : Type} (side : nat) (row : list A) (r c : nat)
    (d : A) :
  (r < side)%nat -> (c < side)%nat ->
  nth c (nth r (chunks side side row) []) d = nth (r * side + c) row d.
Proof.
  intros Hr Hc. rewrite (nth_chunks side side row r Hr).
  rewrite nth_firstn.
  destruct (Nat.ltb_spec c side) as [_|H]; [|lia].
  rewrite nth_skipn. reflexivity.
Qed.

Lemma index_axis0_in_range {A : Type} (a : list A) (i : nat) (d : A) :
  (i < length a)%nat -> index_axis0 a i = inl (nth i a d).
Proof.
  intros Hi. unfold index_axis0.
  rewrite (nth_error_nth' a d Hi). reflexivity.
Qed.

Lemma index_axis0_out_of_range {A : Type} (a : list A) (i : nat) :
  (length a <= i)%nat -> index_axis0 a i = inr (IndexError i (length a)).
Proof.
  intros Hi. unfold index_axis0.
  rewrite (proj2 (nth_error_None a i) Hi). reflexivity.
Qed.

(** A pass of the loop for a sample that exists. *)
Lemma grid_cell_in_range {pixel : Type} (side : nat)
    (X_test : list (list pixel)) (predicted expected : list Z) (i : nat) :
  (0 < side)%nat ->
  Forall (fun r => length r = (side * side)%nat) X_test ->
  (i < length X_test)%nat ->
  (i < length predicted)%nat -> (i < length expected)%nat ->
  grid_cell side X_test predicted expected i =
  (grid_cell_calls side X_test predicted expected i, None).
Proof.
  intros Hside Hrows HX Hp He. unfold grid_cell, grid_cell_calls.
  rewrite (reshape_images_rows side X_test Hside Hrows).
  rewrite (index_axis0_in_range _ i []) by (rewrite length_map; exact HX).
  rewrite (index_axis0_in_range predicted i 0 Hp).
  rewrite (index_axis0_in_range expected i 0 He).
  rewrite (nth_map_in_range (chunks side side) X_test i [] []) by exact HX.
  destruct (nth i predicted 0 =? nth i expected 0); reflexivity.
Qed.

Lemma grid_loop_complete {pixel : Type}
    (body : nat -> list (grid_call pixel) * option runtime_error)
    (made : nat -> list (grid_call pixel)) (indices : list nat) :
  (forall i, In i indices -> body i = (made i, None)) ->
  grid_loop body indices = (flat_map made indices, None).
Proof.
  induction indices as [|i rest IH]; intros Hbody; [reflexivity|].
  cbn [grid_loop flat_map].
  rewrite (Hbody i (or_introl eq_refl)).
  rewrite IH by (intros k Hk; apply Hbody; right; exact Hk).
  reflexivity.
Qed.

Lemma grid_loop_stops {pixel : Type}
    (body : nat -> list (grid_call pixel) * option runtime_error)
    (made : nat -> list (grid_call pixel)) (before after : list nat)
    (i : nat) (partial : list (grid_call pixel)) (e : runtime_error) :
  (forall k, In k before -> body k = (made k, None)) ->
  body i = (partial, Some e) ->
  grid_loop body (before ++ i :: after) =
  (flat_map made before ++ partial, Some e).
Proof.
  intros Hbefore Hi.
  induction before as [|k before IH].
  - cbn [app grid_loop flat_map]. rewrite Hi. reflexivity.
  - cbn [app grid_loop flat_map].
    rewrite (Hbefore k (or_introl eq_refl)).
    rewrite IH by (intros k' Hk'; apply Hbefore; right; exact Hk').
    cbn [fst snd]. rewrite app_assoc. reflexivity.
Qed.

Lemma digit_grid_complete {pixel : Type} (side : nat)
    (X_test : list (list pixel)) (predicted expected : list Z) :
  (0 < side)%nat ->
  Forall (fun r => length r = (side * side)%nat) X_test ->
  (64 <= length X_test)%nat ->
  (64 <= length predicted)%nat -> (64 <= length expected)%nat ->
  digit_grid side X_test predicted expected =
    ([GridFigure 8 8; SubplotsAdjust 0 1 0 1 (1 # 20) (1 # 20)]
     ++ flat_map (grid_cell_calls side X_test predicted expected) (seq 0 64),
     None).
Proof.
  intros Hside Hrows HX Hp He. unfold digit_grid.
  rewrite (grid_loop_complete _
             (grid_cell_calls side X_test predicted expected)).
  - reflexivity.
  - intros i Hi. apply in_seq in Hi.
    apply grid_cell_in_range; assumption || lia.
Qed.

(** X14.  With at least 64 test samples, the cell draws the first 64 of them, in
    order, in the 64 places of an 8 x 8 grid: place i + 1 shows sample i cut
    into [side] rows of [side] pixels, pixel (r, c) being feature
    [r * side + c], and below it the predicted class, in green when it is
    the expected one and in red when it is not. *)
Theorem digit_grid_draws_first_64 {pixel : Type} (side : nat)
    (X_test : list (list pixel)) (predicted expected : list Z) :
  (0 < side)%nat ->
  Forall (fun r => length r = (side * side)%nat) X_test ->
  (64 <= length X_test)%nat ->
  (64 <= length predicted)%nat -> (64 <= length expected)%nat ->
  digit_grid side X_test predicted expected =
    ([GridFigure 8 8; SubplotsAdjust 0 1 0 1 (1 # 20) (1 # 20)]
     ++ flat_map (grid_cell_calls side X_test predicted expected) (seq 0 64),
     None)
  /\ forall (i r c : nat) (d : pixel),
       (r < side)%nat -> (c < side)%nat ->
       nth c (nth r (chunks side side (nth i X_test [])) []) d =
       nth (r * side + c) (nth i X_test []) d.
Proof.
  intros Hside Hrows HX Hp He. split.
  - apply digit_grid_complete; assumption.
  - intros i r c d Hr Hc. apply pixel_of_chunks; assumption.
Qed.

Lemma digit_grid_draws_first_64_witness :
  digit_grid 1 (repeat [5] 64) (repeat 3 64) (repeat 3 64) =
    ([GridFigure 8 8; SubplotsAdjust 0 1 0 1 (1 # 20) (1 # 20)]
     ++ flat_map (grid_cell_calls 1 (repeat [5] 64) (repeat 3 64)
                                  (repeat 3 64)) (seq 0 64),
     None)
  /\ forall (i r c : nat) (d : Z),
       (r < 1)%nat -> (c < 1)%nat ->
       nth c (nth r (chunks 1 1 (nth i (repeat [5] 64) [])) []) d =
       nth (r * 1 + c) (nth i (repeat [5] 64) []) d.
Proof.
  apply (digit_grid_draws_first_64 1 (repeat [5] 64) (repeat 3 64)
           (repeat 3 64)).
  - lia.
  - apply Forall_forall. intros r Hr. apply repeat_spec in Hr. subst r.
    reflexivity.
  - rewrite repeat_length. lia.
  - rewrite repeat_length. lia.
  - rewrite repeat_length. lia.
Defined.

(** X15.  With fewer than 64 test samples the cell fails: it draws the samples
    there are, opens one more, empty, place in the grid, and ends in numpy's
    IndexError when it asks for the image of the sample that is missing. *)
Theorem digit_grid_needs_64_samples {pixel : Type} (side : nat)
    (X_test : list (list pixel)) (predicted expected : list Z) :
  (0 < side)%nat ->
  Forall (fun r => length r = (side * side)%nat) X_test ->
  (length X_test < 64)%nat ->
  (length X_test <= length predicted)%nat ->
  (length X_test <= length expected)%nat ->
  let n := length X_test in
  digit_grid side X_test predicted expected =
    ([GridFigure 8 8; SubplotsAdjust 0 1 0 1 (1 # 20) (1 # 20)]
     ++ flat_map (grid_cell_calls side X_test predicted expected) (seq 0 n)
     ++ [AddSubplot 8 8 (n + 1)],
     Some (IndexError n n)).
Proof.
  intros Hside Hrows HX Hp He n. unfold digit_grid.
  replace 64%nat with (n + S (63 - n))%nat by lia.
  rewrite seq_app. cbn [seq Nat.add].
  rewrite (grid_loop_stops _
             (grid_cell_calls side X_test predicted expected)
             (seq 0 n) _ n [AddSubplot 8 8 (n + 1)] (IndexError n n)).
  - reflexivity.
  - intros k Hk. apply in_seq in Hk.
    apply grid_cell_in_range; assumption || lia.
  - unfold grid_cell.
    rewrite (reshape_images_rows side X_test Hside Hrows).
    rewrite index_axis0_out_of_range by (rewrite length_map; lia).
    rewrite length_map. reflexivity.
Qed.

Lemma digit_grid_needs_64_samples_witness :
  let n := length [[5]; [6]] in
  digit_grid 1 [[5]; [6]] [3; 4] [3; 9] =
    ([GridFigure 8 8; SubplotsAdjust 0 1 0 1 (1 # 20) (1 # 20)]
     ++ flat_map (grid_cell_calls 1 [[5]; [6]] [3; 4] [3; 9]) (seq 0 n)
     ++ [AddSubplot 8 8 (n + 1)],
     Some (IndexError n n)).
Proof.
  apply (digit_grid_needs_64_samples 1 [[5]; [6]] [3; 4] [3; 9]).
  - lia.
  - repeat constructor.
  - cbn. lia.
  - cbn. lia.
  - cbn. lia.
Defined.

Lemma red_texts_of_cells {pixel : Type} (side : nat)
    (X_test : list (list pixel)) (predicted expected : list Z)
    (indices : list nat) :
  length (filter is_red_text
            (flat_map (grid_cell_calls side X_test predicted expected)
                      indices)) =
  length (filter (fun i => negb (nth i predicted 0 =? nth i expected 0))
                 indices).
Proof.
  induction indices as [|i rest IH]; [reflexivity|].
  cbn [flat_map]. rewrite filter_app, length_app, IH.
  unfold grid_cell_calls. cbn [filter is_red_text].
  destruct (nth i predicted 0 =? nth i expected 0); reflexivity.
Qed.

(** X16.  The red labels of the grid count the errors: with at least 64 test
    samples, there are as many red texts as wrong predictions among the
    first 64 samples. *)
Theorem digit_grid_red_labels_count_errors {pixel : Type} (side : nat)
    (X_test : list (list pixel)) (predicted expected : list Z) :
  (0 < side)%nat ->
  Forall (fun r => length r = (side * side)%nat) X_test ->
  (64 <= length X_test)%nat ->
  (64 <= length predicted)%nat -> (64 <= length expected)%nat ->
  length (filter is_red_text
            (fst (digit_grid side X_test predicted expected))) =
  length (wrong_among_first 64 predicted expected).
Proof.
  intros Hside Hrows HX Hp He.
  rewrite (digit_grid_complete side X_test predicted expected
             Hside Hrows HX Hp He).
  cbn [fst]. rewrite filter_app. cbn [filter is_red_text app].
  apply red_texts_of_cells.
Qed.

Lemma digit_grid_red_labels_count_errors_witness :
  length (filter is_red_text
            (fst (digit_grid 1 (repeat [5] 64) (7 :: repeat 3 63)
                             (repeat 3 64)))) =
  length (wrong_among_first 64 (7 :: repeat 3 63) (repeat 3 64)).
Proof.
  apply (digit_grid_red_labels_count_errors 1 (repeat [5] 64)
           (7 :: repeat 3 63) (repeat 3 64)).
  - lia.
  - apply Forall_forall. intros r Hr. apply repeat_spec in Hr. subst r.
    reflexivity.
  - rewrite repeat_length. lia.
  - cbn [length]. rewrite repeat_length. lia.
  - rewrite repeat_length. lia.
Defined.

(** * The Keras notebook: labels *)

Lemma class_indices_in_range (k : nat) (ys : list Z) :
  Forall (fun y => 0 <= y < Z.of_nat k) ys ->
  class_indices k ys = inl (map Z.to_nat ys).
Proof.
  induction 1 as [|y ys Hy _ IH]; [reflexivity|].
  cbn [class_indices map]. unfold class_index.
  destruct (Z.leb_spec 0 y) as [_|H]; [|lia].
  destruct (Z.ltb_spec y (Z.of_nat k)) as [_|H]; [|lia].
  cbn [andb]. rewrite IH. reflexivity.
Qed.

Lemma argmax_from_one_seen (hot best_index i n : nat) :
  argmax_from best_index (Fin 1) i
    (map (fun c => if (c =? hot)%nat then Fin 1 else Fin 0) (seq i n)) =
  best_index.
Proof.
  revert i. induction n as [|n IH]; intros i; [reflexivity|].
  cbn [seq map argmax_from].
  destruct (i =? hot)%nat; cbn; apply IH.
Qed.

Lemma argmax_from_zero_seen (hot best_index i n : nat) :
  argmax_from best_index (Fin 0) i
    (map (fun c => if (c =? hot)%nat then Fin 1 else Fin 0) (seq i n)) =
  if ((i <=? hot) && (hot <? i + n))%nat then hot else best_index.
Proof.
  revert i best_index. induction n as [|n IH]; intros i best_index.
  - cbn [seq map argmax_from].
    destruct (Nat.leb_spec i hot), (Nat.ltb_spec hot (i + 0));
      cbn [andb]; reflexivity || lia.
  - cbn [seq map argmax_from].
    destruct (Nat.eqb_spec i hot) as [->|Hne].
    + change (replaces (Fin 1) (Fin 0)) with true. cbn iota.
      rewrite argmax_from_one_seen.
      destruct (Nat.leb_spec hot hot), (Nat.ltb_spec hot (hot + S n));
        cbn [andb]; reflexivity || lia.
    + change (replaces (Fin 0) (Fin 0)) with false. cbn iota.
      rewrite IH.
      destruct (Nat.leb_spec (S i) hot), (Nat.ltb_spec hot (S i + n)),
               (Nat.leb_spec i hot), (Nat.ltb_spec hot (i + S n));
        cbn [andb]; reflexivity || lia.
Qed.

Lemma np_argmax_one_hot (k hot : nat) :
  (hot < k)%nat -> np_argmax (one_hot k hot) = inl hot.
Proof.
  intros Hhot. unfold one_hot.
  destruct k as [|k]; [lia|]. cbn [seq map np_argmax].
  destruct (Nat.eqb_spec 0 hot) as [<-|Hne].
  - rewrite argmax_from_one_seen. reflexivity.
  - rewrite argmax_from_zero_seen.
    destruct (Nat.leb_spec 1 hot), (Nat.ltb_spec hot (1 + k));
      cbn [andb]; reflexivity || lia.
Qed.

Lemma np_argmax_axis1_one_hot (k : nat) (hots : list nat) :
  Forall (fun hot => (hot < k)%nat) hots ->
  np_argmax_axis1 (map (one_hot k) hots) = inl (map Z.of_nat hots).
Proof.
  induction 1 as [|hot hots Hhot _ IH]; [reflexivity|].
  cbn [map np_argmax_axis1].
  rewrite (np_argmax_one_hot k hot Hhot), IH. reflexivity.
Qed.

Lemma to_categorical_in_range (ys : list Z) (num_classes : positive) :
  Forall (fun y => 0 <= y < Z.pos num_classes) ys ->
  to_categorical ys num_classes =
  inl (map (one_hot (Pos.to_nat num_classes)) (map Z.to_nat ys)).
Proof.
  intros Hys. unfold to_categorical.
  rewrite class_indices_in_range; [reflexivity|].
  apply (Forall_impl _ (P := fun y => 0 <= y < Z.pos num_classes));
    [|exact Hys].
  intros y Hy. rewrite positive_nat_Z. exact Hy.
Qed.

Lemma one_hot_argmax_round_trip (ys : list Z) (num_classes : positive) :
  Forall (fun y => 0 <= y < Z.pos num_classes) ys ->
  to_categorical ys num_classes =
    inl (map (one_hot (Pos.to_nat num_classes)) (map Z.to_nat ys))
  /\ np_argmax_axis1
       (map (one_hot (Pos.to_nat num_classes)) (map Z.to_nat ys)) = inl ys.
Proof.
  intros Hys. split; [apply to_categorical_in_range, Hys|].
  rewrite np_argmax_axis1_one_hot.
  - f_equal. rewrite map_map. rewrite <- (map_id ys) at 2.
    apply map_ext_in. intros y Hy.
    rewrite Forall_forall in Hys. specialize (Hys y Hy). lia.
  - apply Forall_forall. intros hot Hhot. apply in_map_iff in Hhot.
    destruct Hhot as [y [<- Hy]].
    rewrite Forall_forall in Hys. specialize (Hys y Hy). lia.
Qed.

(** X17.  The classes survive the one-hot coding: for labels between 0 and
    [num_classes - 1], [np.argmax(to_categorical(y, num_classes), axis=1)]
    gives the labels back, so [expected] in the grid cell holds the test
    labels. *)
Theorem argmax_recovers_labels (ys : list Z) (num_classes : positive) :
  Forall (fun y => 0 <= y < Z.pos num_classes) ys ->
  exists y_categorical,
    to_categorical ys num_classes = inl y_categorical
    /\ np_argmax_axis1 y_categorical = inl ys.
Proof.
  intros Hys.
  destruct (one_hot_argmax_round_trip ys num_classes Hys) as [Hto Hargmax].
  eexists. split; [exact Hto | exact Hargmax].
Qed.

Lemma argmax_recovers_labels_witness :
  exists y_categorical,
    to_categorical [5; 0; 9] 10 = inl y_categorical
    /\ np_argmax_axis1 y_categorical = inl [5; 0; 9].
Proof.
  apply (argmax_recovers_labels [5; 0; 9] 10).
  repeat constructor; lia.
Defined.

Lemma unique_of_bits (l : list float64) :
  Forall is_bit l ->
  fold_right insert_unique [] l =
  (if existsb (feq (Fin 0)) l then [Fin 0] else [])
  ++ (if existsb (feq (Fin 1)) l then [Fin 1] else []).
Proof.
  induction 1 as [|x l [->| ->] _ IH]; [reflexivity| |];
    cbn [fold_right existsb]; rewrite IH;
    destruct (existsb (feq (Fin 0)) l), (existsb (feq (Fin 1)) l);
    reflexivity.
Qed.

Lemma one_hot_bits (k hot : nat) : Forall is_bit (one_hot k hot).
Proof.
  unfold one_hot. apply Forall_forall. intros x Hx.
  apply in_map_iff in Hx. destruct Hx as [c [<- _]].
  destruct (c =? hot)%nat; [right | left]; reflexivity.
Qed.

Lemma one_hot_has_both (k hot : nat) :
  (hot < k)%nat -> (2 <= k)%nat ->
  In (Fin 0) (one_hot k hot) /\ In (Fin 1) (one_hot k hot).
Proof.
  intros Hhot Hk. unfold one_hot. split.
  - apply in_map_iff. exists (if (hot =? 0)%nat then 1%nat else 0%nat).
    destruct (Nat.eqb_spec hot 0) as [->|Hne].
    + split; [reflexivity | apply in_seq; lia].
    + destruct (Nat.eqb_spec 0 hot) as [E|_]; [lia|].
      split; [reflexivity | apply in_seq; lia].
  - apply in_map_iff. exists hot. rewrite Nat.eqb_refl.
    split; [reflexivity | apply in_seq; lia].
Qed.

(** The distinct entries of a one-hot matrix with a row are 0.0 and 1.0. *)
Lemma np_unique_one_hot (k : nat) (hots : list nat) :
  (2 <= k)%nat -> hots <> [] ->
  Forall (fun hot => (hot < k)%nat) hots ->
  np_unique (map (one_hot k) hots) = [Fin 0; Fin 1].
Proof.
  intros Hk Hne Hhots. unfold np_unique.
  rewrite unique_of_bits.
  - destruct hots as [|hot hots]; [congruence|].
    inversion Hhots as [|? ? Hhot _]; subst.
    destruct (one_hot_has_both k hot Hhot Hk) as [H0 H1].
    assert (E0 : existsb (feq (Fin 0)) (concat (map (one_hot k) (hot :: hots)))
                 = true).
    { apply existsb_exists. exists (Fin 0). split; [|reflexivity].
      cbn [map concat]. apply in_or_app. left. exact H0. }
    assert (E1 : existsb (feq (Fin 1)) (concat (map (one_hot k) (hot :: hots)))
                 = true).
    { apply existsb_exists. exists (Fin 1). split; [|reflexivity].
      cbn [map concat]. apply in_or_app. left. exact H1. }
    rewrite E0, E1. reflexivity.
  - apply Forall_concat. apply Forall_forall. intros row Hrow.
    apply in_map_iff in Hrow. destruct Hrow as [hot [<- _]].
    apply one_hot_bits.
Qed.

Lemma ticks_of_run {label : Type} (nb : notebook) (w : world label)
    (cm : loc) (classes : list label) (normalize : bool) (title : string)
    (cmap : colormap) :
  (cm < length (heap w))%nat ->
  filter is_ticks
    (new_calls w (fst (run_plot nb w cm classes normalize title cmap))) =
  [Xticks (arange (length classes)) classes 45;
   Yticks (arange (length classes)) classes].
Proof.
  intros Hlive.
  rewrite (run_plot_outcome nb w cm classes normalize title cmap Hlive).
  rewrite new_calls_outcome.
  destruct (np_max (annotated (deref (heap w) cm) normalize)) as [m|e];
    [|reflexivity].
  rewrite !filter_app, filter_annotations_none
    by (intros [] Hc; discriminate || reflexivity).
  reflexivity.
Qed.

(** X18.  In the Keras notebook the confusion matrix is plotted with
    [classes=np.unique(y_test)] after [y_test] has been one-hot coded: for
    test labels between 0 and [num_classes - 1], at least one of them and at
    least two classes, the class labels passed are 0.0 and 1.0, so each axis
    gets two ticks, at positions 0 and 1, whatever the number of classes. *)
Theorem keras_confusion_plot_has_two_ticks (w : world float64) (cm : loc)
    (ys : list Z) (num_classes : positive)
    (y_test : list (list float64)) :
  (cm < length (heap w))%nat ->
  Forall (fun y => 0 <= y < Z.pos num_classes) ys ->
  ys <> [] ->
  (2 <= num_classes)%positive ->
  to_categorical ys num_classes = inl y_test ->
  np_unique y_test = [Fin 0; Fin 1]
  /\ filter is_ticks
       (new_calls w (fst (KerasCells.plot_test_confusion cm y_test w))) =
     [Xticks [0%nat; 1%nat] [Fin 0; Fin 1] 45;
      Yticks [0%nat; 1%nat] [Fin 0; Fin 1]].
Proof.
  intros Hlive Hys Hne Hk Hcat.
  rewrite (to_categorical_in_range ys num_classes Hys) in Hcat.
  injection Hcat as <-.
  assert (Hunique :
    np_unique (map (one_hot (Pos.to_nat num_classes)) (map Z.to_nat ys)) =
    [Fin 0; Fin 1]).
  { apply np_unique_one_hot.
    - lia.
    - destruct ys; [congruence | discriminate].
    - apply Forall_forall. intros hot Hhot. apply in_map_iff in Hhot.
      destruct Hhot as [y [<- Hy]].
      rewrite Forall_forall in Hys. specialize (Hys y Hy). lia. }
  split; [exact Hunique|].
  unfold KerasCells.plot_test_confusion.
  change (Keras.plot_confusion_matrix cm ?c false ?t ?m w)
    with (run_plot KerasNotebook w cm c false t m).
  rewrite (ticks_of_run KerasNotebook w cm _ false _ _ Hlive).
  rewrite Hunique. reflexivity.
Qed.

Lemma keras_confusion_plot_has_two_ticks_witness :
  np_unique (map (one_hot 10) [5%nat; 0%nat; 9%nat]) = [Fin 0; Fin 1]
  /\ filter is_ticks
       (new_calls (World [example_counts] [] [])
          (fst (KerasCells.plot_test_confusion 0%nat
                  (map (one_hot 10) [5%nat; 0%nat; 9%nat])
                  (World [example_counts] [] [])))) =
     [Xticks [0%nat; 1%nat] [Fin 0; Fin 1] 45;
      Yticks [0%nat; 1%nat] [Fin 0; Fin 1]].
Proof.
  apply (keras_confusion_plot_has_two_ticks (World [example_counts] [] [])
           0%nat [5; 0; 9] 10).
  - cbn. lia.
  - repeat constructor; lia.
  - discriminate.
  - lia.
  - reflexivity.
Defined.

(** * The Keras notebook: pixels *)

Lemma concat_concat_map {A : Type} (x : list (list (list A))) :
  concat (concat x) = concat (map (@concat A) x).
Proof.
  induction x as [|img x IH]; [reflexivity|].
  cbn [concat map]. rewrite concat_app, IH. reflexivity.
Qed.

Lemma gray_image_rows (side : nat) (image : list (list Z)) :
  gray_image side image ->
  Forall (fun r => length r = side) image.
Proof.
  intros [_ Hrows].
  apply (Forall_impl _ (P := fun r => length r = side
                               /\ Forall (fun p => 0 <= p <= 255) r));
    [|exact Hrows].
  intros r [Hr _]. exact Hr.
Qed.

Lemma gray_image_flat_length (side : nat) (image : list (list Z)) :
  gray_image side image -> length (concat image) = (side * side)%nat.
Proof.
  intros Himg. rewrite (length_concat_rows side image (gray_image_rows _ _ Himg)).
  destruct Himg as [-> _]. reflexivity.
Qed.

Lemma flat_images_length (side : nat) (x : list (list (list Z))) :
  Forall (gray_image side) x ->
  Forall (fun r => length r = (side * side)%nat) (map (@concat Z) x).
Proof.
  intros Hx. apply Forall_forall. intros r Hr. apply in_map_iff in Hr.
  destruct Hr as [img [<- Himg]]. rewrite Forall_forall in Hx.
  apply gray_image_flat_length, Hx, Himg.
Qed.

Lemma reshape_rows_images (rows : nat) (x : list (list (list Z))) :
  Forall (gray_image 28) x ->
  reshape_rows rows 784 x =
  if (length x =? rows)%nat then inl (map (@concat Z) x)
  else inr (WrongSize (length x * 784)).
Proof.
  intros Hx. unfold reshape_rows.
  pose proof (flat_images_length 28 x Hx) as Hflat.
  change (28 * 28)%nat with 784%nat in Hflat.
  rewrite concat_concat_map, (length_concat_rows 784 _ Hflat), length_map.
  destruct (Nat.eqb_spec (length x) rows) as [<-|Hne].
  - rewrite Nat.eqb_refl.
    rewrite <- (length_map (@concat Z) x) at 1.
    rewrite (chunks_concat 784 _ Hflat). reflexivity.
  - destruct (Nat.eqb_spec (length x * 784) (rows * 784)) as [E|_];
      [lia | reflexivity].
Qed.





(** X20.  The sizes are written into the cell: on a data set of 28 x 28 images
    that does not hold exactly [rows] of them, the reshape fails with
    numpy's error and nothing is scaled. *)
Theorem flatten_and_scale_wrong_count (rows : nat)
    (x : list (list (list Z))) :
  length x <> rows ->
  Forall (gray_image 28) x ->
  KerasCells.flatten_and_scale rows x = inr (WrongSize (length x * 784)).
Proof.
  intros Hlen Hx. unfold KerasCells.flatten_and_scale.
  rewrite (reshape_rows_images rows x Hx).
  destruct (Nat.eqb_spec (length x) rows) as [E|_]; [contradiction|].
  reflexivity.
Qed.

Lemma flatten_and_scale_wrong_count_witness :
  KerasCells.flatten_and_scale 2 [repeat (repeat 255 28) 28] =
  inr (WrongSize (length [repeat (repeat 255 28) 28] * 784)).
Proof.
  apply (flatten_and_scale_wrong_count 2 [repeat (repeat 255 28) 28]).
  - cbn. lia.
  - constructor; [|constructor]. split; [reflexivity|].
    apply Forall_forall. intros r Hr. apply repeat_spec in Hr. subst r.
    split; [reflexivity|].
    apply Forall_forall. intros p Hp. apply repeat_spec in Hp. lia.
Defined.






